(** * Shadow-mapping render passes and light cameras

    A shallow embedding of the render-pass orchestrator ([RenderPasses]),
    the cameras ([BaseCamera], [PerspectiveCamera], [OrthoCamera]), the
    lights ([Light] and its subclasses), the textures ([BaseTexture],
    [ImageTexture], [RenderTexture]) and the controls of the application
    ([WebGlApp]) of the renderer.

    JavaScript numbers are idealised as real numbers; canvas and texture
    sizes, light ids and filter indices are integers.  Objects are records,
    [null]/[undefined] is [None], exceptions are an explicit result, and the
    WebGL context, the shader programs and the framebuffer objects live in
    an explicit state that every call threads through. *)

From Stdlib Require Import Reals Lra Lia ZArith List String.
From stdpp Require Import gmap strings pretty.

Open Scope R_scope.

(** ** gl-matrix: vectors *)

(** Modelled from the spec: the vendored gl-matrix library
    ([js/lib/glmatrix]) is not part of the sources.  Its vectors and
    matrices are arrays of numbers; the routines below compute what the
    spec names (length, normalize, dot product, matrix product,
    orthographic bounds) the way the library documents them. *)
Record vec3 := V3 { vx : R; vy : R; vz : R }.

(** Modelled from the spec: [vec3.create()], the zero vector. *)
Definition vec3_create : vec3 := V3 0 0 0.

(** Modelled from the spec: [vec3.add], [vec3.sub], [vec3.scale],
    [vec3.dot] and [vec3.cross], component by component. *)
Definition vec3_add (a b : vec3) : vec3 :=
  V3 (vx a + vx b) (vy a + vy b) (vz a + vz b).

Definition vec3_sub (a b : vec3) : vec3 :=
  V3 (vx a - vx b) (vy a - vy b) (vz a - vz b).

Definition vec3_scale (a : vec3) (b : R) : vec3 :=
  V3 (vx a * b) (vy a * b) (vz a * b).

Definition vec3_dot (a b : vec3) : R :=
  vx a * vx b + vy a * vy b + vz a * vz b.

Definition vec3_cross (a b : vec3) : vec3 :=
  V3 (vy a * vz b - vz a * vy b)
     (vz a * vx b - vx a * vz b)
     (vx a * vy b - vy a * vx b).

(** Modelled from the spec: [vec3.length(a)], the Euclidean norm. *)
Definition vec3_length (a : vec3) : R :=
  sqrt (vx a * vx a + vy a * vy a + vz a * vz a).

(** Modelled from the spec: [vec3.normalize(out, a)]; the squared length
    is inverted only when it is positive, so the zero vector is mapped to
    itself. *)
Definition vec3_normalize (a : vec3) : vec3 :=
  let len := vx a * vx a + vy a * vy a + vz a * vz a in
  let len' := if Rgt_dec len 0 then 1 / sqrt len else len in
  V3 (vx a * len') (vy a * len') (vz a * len').

(** ** gl-matrix: 4x4 matrices *)

(** Modelled from the spec: a [mat4] of gl-matrix, sixteen entries in
    column-major order. *)
Record mat4 := M4 {
  e0 : R; e1 : R; e2 : R; e3 : R;
  e4 : R; e5 : R; e6 : R; e7 : R;
  e8 : R; e9 : R; e10 : R; e11 : R;
  e12 : R; e13 : R; e14 : R; e15 : R }.

(** Modelled from the spec: [mat4.create()] and [mat4.identity(out)]. *)
Definition mat4_identity : mat4 :=
  M4 1 0 0 0
     0 1 0 0
     0 0 1 0
     0 0 0 1.

Definition mat4_create : mat4 := mat4_identity.

(** Modelled from the spec: [mat4.multiply(out, a, b)], the product of
    [a] and [b], computed column by column of [b]. *)
Definition mat4_multiply (a b : mat4) : mat4 :=
  let a00 := e0 a in let a01 := e1 a in let a02 := e2 a in let a03 := e3 a in
  let a10 := e4 a in let a11 := e5 a in let a12 := e6 a in let a13 := e7 a in
  let a20 := e8 a in let a21 := e9 a in let a22 := e10 a in let a23 := e11 a in
  let a30 := e12 a in let a31 := e13 a in let a32 := e14 a in let a33 := e15 a in
  let row (b0 b1 b2 b3 : R) :=
    (b0 * a00 + b1 * a10 + b2 * a20 + b3 * a30,
     b0 * a01 + b1 * a11 + b2 * a21 + b3 * a31,
     b0 * a02 + b1 * a12 + b2 * a22 + b3 * a32,
     b0 * a03 + b1 * a13 + b2 * a23 + b3 * a33) in
  let '(o0, o1, o2, o3) := row (e0 b) (e1 b) (e2 b) (e3 b) in
  let '(o4, o5, o6, o7) := row (e4 b) (e5 b) (e6 b) (e7 b) in
  let '(o8, o9, o10, o11) := row (e8 b) (e9 b) (e10 b) (e11 b) in
  let '(o12, o13, o14, o15) := row (e12 b) (e13 b) (e14 b) (e15 b) in
  M4 o0 o1 o2 o3 o4 o5 o6 o7 o8 o9 o10 o11 o12 o13 o14 o15.

(** Modelled from the spec: [mat4.ortho(out, left, right, bottom, top,
    near, far)], the orthographic projection with these bounds. *)
Definition mat4_ortho (left right bottom top near far : R) : mat4 :=
  let lr := 1 / (left - right) in
  let bt := 1 / (bottom - top) in
  let nf := 1 / (near - far) in
  M4 (-2 * lr) 0 0 0
     0 (-2 * bt) 0 0
     0 0 (2 * nf) 0
     ((left + right) * lr) ((top + bottom) * bt) ((far + near) * nf) 1.

(** Modelled from the spec: [mat4.getScaling(out, mat)], the lengths of
    the three basis columns. *)
Definition mat4_getScaling (m : mat4) : vec3 :=
  V3 (vec3_length (V3 (e0 m) (e1 m) (e2 m)))
     (vec3_length (V3 (e4 m) (e5 m) (e6 m)))
     (vec3_length (V3 (e8 m) (e9 m) (e10 m))).

(** Modelled from the spec: [mat4.getTranslation(out, mat)], the last
    column. *)
Definition mat4_getTranslation (m : mat4) : vec3 :=
  V3 (e12 m) (e13 m) (e14 m).

(** Entry [(row, col)] of a matrix stored column by column, and the
    textbook product; [mat4_multiply] is compared with it below. *)
Definition mat4_entry (m : mat4) (row col : nat) : R :=
  match (col * 4 + row)%nat with
  | 0%nat => e0 m | 1%nat => e1 m | 2%nat => e2 m | 3%nat => e3 m
  | 4%nat => e4 m | 5%nat => e5 m | 6%nat => e6 m | 7%nat => e7 m
  | 8%nat => e8 m | 9%nat => e9 m | 10%nat => e10 m | 11%nat => e11 m
  | 12%nat => e12 m | 13%nat => e13 m | 14%nat => e14 m | _ => e15 m
  end.

Definition matrix_product_entry (a b : mat4) (row col : nat) : R :=
  mat4_entry a row 0 * mat4_entry b 0 col
  + mat4_entry a row 1 * mat4_entry b 1 col
  + mat4_entry a row 2 * mat4_entry b 2 col
  + mat4_entry a row 3 * mat4_entry b 3 col.

(** A quaternion, as [mat4.getRotation] produces it. *)
Record quat := Q4 { qx : R; qy : R; qz : R; qw : R }.

(** Modelled from the spec: the gl-matrix routines whose bodies no
    property below depends on, left open.
    [mat4_fromRotation] answers [None] where the library returns [null]
    (an axis of length below its epsilon). *)
Class GlMatrixLib := {
  mat4_lookAt : vec3 -> vec3 -> vec3 -> mat4;
  mat4_perspective : R -> R -> R -> R -> mat4;
  mat4_getRotation : mat4 -> quat;
  vec3_transformQuat : vec3 -> quat -> vec3;
  vec3_rotateY : vec3 -> vec3 -> R -> vec3;
  mat4_fromRotation : R -> vec3 -> option mat4;
  vec3_transformMat4 : vec3 -> mat4 -> vec3 }.

(** Modelled from the spec: [js/utils/utils.js] is not part of the sources;
    [deg2rad] and [rad2deg] convert between degrees and radians. *)
Definition deg2rad (d : R) : R := d * PI / 180.
Definition rad2deg (r : R) : R := r * 180 / PI.

(** ** Exceptions *)

Inductive exn :=
| TypeError (msg : string)
| ExternalError (msg : string).

Inductive result (A : Type) :=
| Ok (a : A)
| Throw (e : exn).
Arguments Ok {A} a.
Arguments Throw {A} e.

(** ** Cameras *)

Inductive CameraClass :=
| PerspectiveClass (fovy aspect near far : R)
| OrthoClass.

Record Camera := mkCamera {
  eye : vec3;
  center : vec3;
  forward : vec3;
  right : vec3;
  up : vec3;
  view : mat4;
  projection : mat4;
  cam_class : CameraClass }.

(** The user input read by the arcball controls. *)
Record InputState := {
  isMouseDown : nat -> bool;
  isKeyDown : string -> bool;
  getMouseDx : R;
  getMouseDy : R }.

Section Cameras.
Context `{GlMatrixLib}.

Definition BaseCamera_updateViewSpaceVectors (c : Camera) : Camera :=
  let forward' := vec3_normalize (vec3_sub (eye c) (center c)) in
  let right' := vec3_normalize (vec3_cross (V3 0 1 0) forward') in
  let up' := vec3_normalize (vec3_cross forward' right') in
  mkCamera (eye c) (center c) forward' right' up'
           (view c) (projection c) (cam_class c).

(** The [BaseCamera] constructor; the subclass supplies the projection
    and its own fields afterwards. *)
Definition new_BaseCamera (eye0 center0 : vec3)
    (proj : mat4) (cls : CameraClass) : Camera :=
  let c := BaseCamera_updateViewSpaceVectors
             (mkCamera eye0 center0 vec3_create vec3_create vec3_create
                       mat4_identity proj cls) in
  mkCamera (eye c) (center c) (forward c) (right c) (up c)
           (mat4_lookAt (eye c) (center c) (up c)) proj cls.

Definition new_PerspectiveCamera (eye0 center0 : vec3)
    (fovy aspect near far : R) : Camera :=
  new_BaseCamera eye0 center0
    (mat4_perspective (deg2rad fovy) aspect near far)
    (PerspectiveClass fovy aspect near far).

Definition new_OrthoCamera (eye0 center0 : vec3)
    (left right0 bottom top near far : R) : Camera :=
  new_BaseCamera eye0 center0
    (mat4_ortho left right0 bottom top near far) OrthoClass.

(** Constructor defaults. *)
Definition default_eye : vec3 := V3 2 (1 / 2) (-2).
Definition default_center : vec3 := V3 0 0 0.
Definition default_near : R := 1 / 100.
Definition default_far : R := 100.

Definition getProjectionMatrix (c : Camera) : mat4 := projection c.
Definition getViewMatrix (c : Camera) : mat4 := view c.
Definition getEye (c : Camera) : vec3 := eye c.

Definition set_eye (c : Camera) (e : vec3) : Camera :=
  mkCamera e (center c) (forward c) (right c) (up c)
           (view c) (projection c) (cam_class c).
Definition set_center (c : Camera) (e : vec3) : Camera :=
  mkCamera (eye c) e (forward c) (right c) (up c)
           (view c) (projection c) (cam_class c).
Definition set_view (c : Camera) (v : mat4) : Camera :=
  mkCamera (eye c) (center c) (forward c) (right c) (up c)
           v (projection c) (cam_class c).

(** [BaseCamera.update(delta_time)]: the camera after the call, together
    with the returned dirty flag or the exception raised on the way.  The
    camera keeps what was assigned before an exception. *)
Definition BaseCamera_update (inp : InputState) (delta_time : R)
    (c : Camera) : result bool * Camera :=
  let view_dirty := false in
  (* Control - Zoom *)
  let '(c, view_dirty) :=
    if isMouseDown inp 2 then
      let translation :=
        vec3_scale (forward c) (- getMouseDy inp * delta_time) in
      (set_eye c (vec3_add (eye c) translation), true)
    else (c, view_dirty) in
  (* Control - Rotate *)
  let rotated : result (Camera * bool) * Camera :=
    if isMouseDown inp 0 && negb (isKeyDown inp " ") then
      let c := set_eye c
        (vec3_rotateY (eye c) (center c)
           (deg2rad (-10 * getMouseDx inp * delta_time))) in
      match mat4_fromRotation
              (deg2rad (-10 * getMouseDy inp * delta_time)) (right c) with
      | None => (Throw (TypeError "rotation is null"), c)
      | Some rotation =>
          let c := set_eye c (vec3_transformMat4 (eye c) rotation) in
          (Ok (c, true), c)
      end
    else (Ok (c, view_dirty), c) in
  match rotated with
  | (Throw e, c) => (Throw e, c)
  | (Ok (c, view_dirty), _) =>
      (* Control - Pan *)
      let '(c, view_dirty) :=
        if isMouseDown inp 1
           || (isMouseDown inp 0 && isKeyDown inp " ") then
          let translation :=
            vec3_add
              (vec3_scale (right c) (-0.75 * getMouseDx inp * delta_time))
              (vec3_scale (up c) (0.75 * getMouseDy inp * delta_time)) in
          let c := set_eye c (vec3_add (eye c) translation) in
          let c := set_center c (vec3_add (center c) translation) in
          (c, true)
        else (c, view_dirty) in
      (* Update view matrix if needed *)
      if view_dirty then
        let c := BaseCamera_updateViewSpaceVectors c in
        let c := set_view c (mat4_lookAt (eye c) (center c) (up c)) in
        (Ok view_dirty, c)
      else (Ok view_dirty, c)
  end.

End Cameras.

(** Mutually orthogonal unit vectors. *)
Definition orthonormal_frame (f r u : vec3) : Prop :=
  vec3_length f = 1 /\ vec3_length r = 1 /\ vec3_length u = 1 /\
  vec3_dot f r = 0 /\ vec3_dot f u = 0 /\ vec3_dot r u = 0.

Definition camera_frame_orthonormal (c : Camera) : Prop :=
  orthonormal_frame (forward c) (right c) (up c).

(** ** Shader programs, textures, framebuffers and the WebGL context *)

(** A shader object is known by its reference. *)
Definition ShaderRef := nat.

(** The value handed to [setUniform1i], [setUniform1f], [setUniform3f] or
    [setUniform4x4f]. *)
Inductive UniformValue :=
| U1i (n : Z)
| U1f (x : R)
| U3f (v : vec3)
| U4x4f (m : mat4).

(** The three framebuffer objects the [RenderPasses] constructor creates:
    [fbo_pixel_filter], [fbo_directional] and [fbo_point]. *)
Inductive FboRef := FboPixelFilter | FboDirectional | FboPoint.

#[global] Instance FboRef_eq_dec : EqDecision FboRef.
Proof. solve_decision. Defined.

(** Modelled from the spec: [assignment4.fbo.js] is not part of the
    sources; a framebuffer object owns one colour and one depth texture,
    returned by [getColorTexture()] and [getDepthTexture()]. *)
Inductive Texture :=
| ColorTextureOf (f : FboRef)
| DepthTextureOf (f : FboRef).

Definition getColorTexture (f : FboRef) : Texture := ColorTextureOf f.
Definition getDepthTexture (f : FboRef) : Texture := DepthTextureOf f.

(** The state the passes share with their collaborators: the uniforms of
    every shader program, and the WebGL context. *)
Record Env := mkEnv {
  uniforms : gmap ShaderRef (gmap string UniformValue);
  current_program : option ShaderRef;
  active_texture : nat;
  texture_2d : gmap nat Texture;
  bound_framebuffer : option FboRef;
  viewport : Z * Z * Z * Z;
  fbo_width : FboRef -> Z;
  fbo_height : FboRef -> Z }.

(** The uniforms of one program; a program nothing was written to has none. *)
Definition uniforms_of (e : Env) (s : ShaderRef) : gmap string UniformValue :=
  default ∅ (uniforms e !! s).

(** ** Lights *)

Inductive LightClass :=
| BaseLightClass
| AmbientLightClass
| DirectionalLightClass
| PointLightClass.

(** A light: the fields of [Light] and, for the gizmo, the shader and the
    model matrix it inherits.  No method below assigns a field, so lights
    are passed as values. *)
Record Light := mkLight {
  light_class : LightClass;
  id : Z;
  color : vec3;
  intensity : R;
  target_shader : option ShaderRef;
  shader : option ShaderRef;
  model_matrix : mat4 }.

(** ** Calls into collaborators whose code is elsewhere *)

(** Modelled from the spec: the scene ([js/utils/scene.js]), the
    full-screen quad ([assignment4.quad.js]) and the cube that draws a
    light gizmo ([js/utils/cube.js]) are not part of the sources.  The
    passes call [scene.setShader(gl, shader)], [scene.render(gl, excludes)],
    [quad.render(gl, filter, color, depth)] and the cube's [render(gl)]. *)
Inductive ExtCall :=
| SceneSetShader (s : option ShaderRef)
| SceneRender (excludes : option (list string))
| QuadRender (filter_mode : Z) (color_tex depth_tex : Texture)
| CubeRender (gizmo_of : Light).

(** What a collaborator does to the shared state, and whether it raises:
    any change of the uniforms and of the context is allowed. *)
Class Collaborators := {
  ext_call : ExtCall -> Env -> option exn * Env }.

(** ** The trace of calls a pass issues *)

Inductive Event :=
| EvUse (s : ShaderRef)
| EvUnuse (s : ShaderRef)
| EvSetUniform (s : ShaderRef) (name : string) (v : UniformValue)
| EvFboResize (f : FboRef) (width height : Z)
| EvFboBind (f : FboRef)
| EvFboUnbind (f : FboRef)
| EvViewport (x y width height : Z)
| EvClearColor (hex : string) (alpha : R)
| EvClear
| EvActiveTexture (texture_unit : nat)
| EvBindTexture2D (t : option Texture)
| EvExt (c : ExtCall).

(** ** The application object *)

Record SceneNode := mkSceneNode {
  node_type : string;
  node_light : option Light }.

Record Scene := mkScene {
  scene_nodes : list SceneNode;
  scenegraph_transformation : mat4 }.

(** The fields of the application the passes read or assign; [fbo] is
    [this.fbo], a reference to one of the three framebuffer objects. *)
Record App := mkApp {
  shaders : list ShaderRef;
  shadow_shader : option ShaderRef;
  active_shader : nat;
  scene : option Scene;
  camera : Camera;
  first_directional_light : option Light;
  first_point_light : option Light;
  filter_mode : Z;
  fbo : FboRef }.

Record State := mkState {
  app : App;
  env : Env;
  trace : list Event }.

(** ** A state and exception monad *)

Definition M (A : Type) : Type := State -> result A * State.

#[global] Instance M_ret : MRet M := fun A a st => (Ok a, st).

#[global] Instance M_bind : MBind M := fun A B k m st =>
  match m st with
  | (Ok a, st') => k a st'
  | (Throw e, st') => (Throw e, st')
  end.

Definition throw {A} (e : exn) : M A := fun st => (Throw e, st).

Definition get_app : M App := fun st => (Ok (app st), st).

Definition set_app (a : App) : M unit :=
  fun st => (Ok tt, mkState a (env st) (trace st)).

(** Run a context or shader primitive: change the shared state and log. *)
Definition prim (ev : Event) (f : Env -> Env) : M unit :=
  fun st => (Ok tt, mkState (app st) (f (env st)) (trace st ++ [ev])).

(** A method call on [null] or [undefined]. *)
Definition deref {A} (what : string) (o : option A) : M A :=
  match o with
  | Some a => mret a
  | None => throw (TypeError what)
  end.

Definition when_some {A} (o : option A) (k : A -> M unit) : M unit :=
  match o with
  | Some a => k a
  | None => mret tt
  end.

Definition get_env : M Env := fun st => (Ok (env st), st).

(** ** Shader, context and framebuffer primitives *)

(** Modelled from the spec: [js/utils/shader.js] is not part of the
    sources; [use()] and [unuse()] activate and deactivate the program,
    and [setUniform*(name, value)] stores the value under the name. *)
Definition use_program (s : ShaderRef) (e : Env) : Env :=
  mkEnv (uniforms e) (Some s) (active_texture e) (texture_2d e)
        (bound_framebuffer e) (viewport e) (fbo_width e) (fbo_height e).

Definition unuse_program (e : Env) : Env :=
  mkEnv (uniforms e) None (active_texture e) (texture_2d e)
        (bound_framebuffer e) (viewport e) (fbo_width e) (fbo_height e).

Definition write_uniform (s : ShaderRef) (name : string) (v : UniformValue)
    (e : Env) : Env :=
  mkEnv (<[s := <[name := v]> (uniforms_of e s)]> (uniforms e))
        (current_program e) (active_texture e) (texture_2d e)
        (bound_framebuffer e) (viewport e) (fbo_width e) (fbo_height e).

Definition Shader_use (s : ShaderRef) : M unit :=
  prim (EvUse s) (use_program s).

Definition Shader_unuse (s : ShaderRef) : M unit :=
  prim (EvUnuse s) unuse_program.

Definition Shader_setUniform (s : ShaderRef) (name : string)
    (v : UniformValue) : M unit :=
  prim (EvSetUniform s name v) (write_uniform s name v).

Definition setUniform1i s name (n : Z) := Shader_setUniform s name (U1i n).
Definition setUniform1f s name (x : R) := Shader_setUniform s name (U1f x).
Definition setUniform3f s name (v : vec3) := Shader_setUniform s name (U3f v).
Definition setUniform4x4f s name (m : mat4) :=
  Shader_setUniform s name (U4x4f m).

(** [gl.viewport(x, y, width, height)] *)
Definition set_viewport (x y w h : Z) (e : Env) : Env :=
  mkEnv (uniforms e) (current_program e) (active_texture e) (texture_2d e)
        (bound_framebuffer e) (x, y, w, h) (fbo_width e) (fbo_height e).

Definition gl_viewport (x y w h : Z) : M unit :=
  prim (EvViewport x y w h) (set_viewport x y w h).

(** [gl.clearColor(...hex2rgb(hex), alpha)] and [gl.clear(...)] *)
Definition gl_clearColor (hex : string) (alpha : R) : M unit :=
  prim (EvClearColor hex alpha) (fun e => e).
Definition gl_clear : M unit := prim EvClear (fun e => e).

(** [gl.activeTexture(gl.TEXTURE0 + texture_unit)] *)
Definition set_active_texture (texture_unit : nat) (e : Env) : Env :=
  mkEnv (uniforms e) (current_program e) texture_unit (texture_2d e)
        (bound_framebuffer e) (viewport e) (fbo_width e) (fbo_height e).

Definition gl_activeTexture (texture_unit : nat) : M unit :=
  prim (EvActiveTexture texture_unit) (set_active_texture texture_unit).

(** [gl.bindTexture(gl.TEXTURE_2D, t)]: binds on the active unit. *)
Definition bind_texture_2d (t : option Texture) (e : Env) : Env :=
  mkEnv (uniforms e) (current_program e) (active_texture e)
        (match t with
         | Some tex => <[active_texture e := tex]> (texture_2d e)
         | None => delete (active_texture e) (texture_2d e)
         end)
        (bound_framebuffer e) (viewport e) (fbo_width e) (fbo_height e).

Definition gl_bindTexture2D (t : option Texture) : M unit :=
  prim (EvBindTexture2D t) (bind_texture_2d t).

(** Modelled from the spec: [assignment4.fbo.js] is not part of the
    sources; [resize(width, height)] records the new size, and
    [bindFramebuffer()]/[unbindFramebuffer()] select the render target. *)
Definition resize_fbo (f : FboRef) (w h : Z) (e : Env) : Env :=
  mkEnv (uniforms e) (current_program e) (active_texture e) (texture_2d e)
        (bound_framebuffer e) (viewport e)
        (fun g => if decide (g = f) then w else fbo_width e g)
        (fun g => if decide (g = f) then h else fbo_height e g).

Definition bind_fbo (f : option FboRef) (e : Env) : Env :=
  mkEnv (uniforms e) (current_program e) (active_texture e) (texture_2d e)
        f (viewport e) (fbo_width e) (fbo_height e).

Definition Fbo_resize (f : FboRef) (w h : Z) : M unit :=
  prim (EvFboResize f w h) (resize_fbo f w h).

Definition Fbo_bindFramebuffer (f : FboRef) : M unit :=
  prim (EvFboBind f) (bind_fbo (Some f)).

Definition Fbo_unbindFramebuffer (f : FboRef) : M unit :=
  prim (EvFboUnbind f) (bind_fbo None).

Section Passes.
Context `{GlMatrixLib} `{Collaborators}.

(** A call into a collaborator: logged, and raising when it raises. *)
Definition call_ext (c : ExtCall) : M unit :=
  fun st =>
    let '(r, e') := ext_call c (env st) in
    (match r with None => Ok tt | Some x => Throw x end,
     mkState (app st) e' (trace st ++ [EvExt c])).

(** *** Lights ([js/utils/light.js]) *)

Definition Light_setTargetShader (l : Light) (s : option ShaderRef)
    : Light :=
  mkLight (light_class l) (id l) (color l) (intensity l) s
          (shader l) (model_matrix l).

(** [Light.render(gl)]: colour the gizmo, then draw the cube. *)
Definition Light_render (l : Light) : M unit :=
  s ← deref "this.shader" (shader l);
  Shader_use s;;
  setUniform3f s "u_color" (color l);;
  Shader_unuse s;;
  call_ext (CubeRender l).

Definition Light_getPosition (l : Light) : vec3 :=
  mat4_getTranslation (model_matrix l).

Definition AmbientLight_update (l : Light) : M unit :=
  match target_shader l with
  | Some ts =>
      Shader_use ts;;
      setUniform3f ts ("u_lights_ambient[" +:+ pretty (id l) +:+ "].color")
                   (color l);;
      setUniform1f ts
        ("u_lights_ambient[" +:+ pretty (id l) +:+ "].intensity")
        (intensity l);;
      Shader_unuse ts
  | None => mret tt
  end.

Definition DirectionalLight_update (l : Light) : M unit :=
  let transform := mat4_getRotation (model_matrix l) in
  let direction := vec3_transformQuat (V3 0 (-1) 0) transform in
  match target_shader l with
  | Some ts =>
      Shader_use ts;;
      setUniform3f ts
        ("u_lights_directional[" +:+ pretty (id l) +:+ "].direction")
        direction;;
      setUniform3f ts
        ("u_lights_directional[" +:+ pretty (id l) +:+ "].color")
        (color l);;
      setUniform1f ts
        ("u_lights_directional[" +:+ pretty (id l) +:+ "].intensity")
        (intensity l);;
      Shader_unuse ts
  | None => mret tt
  end.

Definition DirectionalLight_getCamera (l : Light) (scale : vec3) : Camera :=
  (* The radius of the scene *)
  let radius := vec3_length scale in
  let dir := vec3_create in
  let eye0 := vec3_create in
  let center0 := vec3_add eye0 dir in
  new_OrthoCamera eye0 center0 (- radius) radius (- radius) radius
                  default_near default_far.

Definition PointLight_update (l : Light) : M unit :=
  let position := mat4_getTranslation (model_matrix l) in
  match target_shader l with
  | Some ts =>
      Shader_use ts;;
      setUniform3f ts
        ("u_lights_point[" +:+ pretty (id l) +:+ "].position") position;;
      setUniform3f ts
        ("u_lights_point[" +:+ pretty (id l) +:+ "].color") (color l);;
      setUniform1f ts
        ("u_lights_point[" +:+ pretty (id l) +:+ "].intensity")
        (intensity l);;
      Shader_unuse ts
  | None => mret tt
  end.

Definition PointLight_getCamera (l : Light) (scale : vec3) : Camera :=
  let eye0 := vec3_create in
  let center0 := vec3_create in
  (* estimate the fovy based on the scene scale *)
  let v1 := vec3_normalize (vec3_sub scale eye0) in
  let v2 := vec3_normalize (vec3_sub center0 eye0) in
  let fovy := acos (vec3_dot v1 v2) in
  let fovy := Rmin (rad2deg fovy * 2) 180 in
  new_PerspectiveCamera eye0 center0 fovy 1 default_near default_far.

(** [light.getCamera(scale)], dispatched on the class; the base method,
    which ambient lights inherit, returns [null]. *)
Definition Light_getCamera (l : Light) (scale : vec3) : option Camera :=
  match light_class l with
  | BaseLightClass | AmbientLightClass => None
  | DirectionalLightClass => Some (DirectionalLight_getCamera l scale)
  | PointLightClass => Some (PointLight_getCamera l scale)
  end.

(** *** The application ([js/app/webglapp.js]) *)

Definition setViewport (width height : Z) : M unit :=
  gl_viewport 0 0 width height.

Definition clearCanvas : M unit :=
  gl_clearColor "#28282B" 1;;
  gl_clear.

Definition set_first_directional_light (a : App) (l : option Light) : App :=
  mkApp (shaders a) (shadow_shader a) (active_shader a) (scene a)
        (camera a) l (first_point_light a) (filter_mode a) (fbo a).

Definition set_first_point_light (a : App) (l : option Light) : App :=
  mkApp (shaders a) (shadow_shader a) (active_shader a) (scene a)
        (camera a) (first_directional_light a) l (filter_mode a) (fbo a).

Definition set_scene (a : App) (sc : option Scene) : App :=
  mkApp (shaders a) (shadow_shader a) (active_shader a) sc
        (camera a) (first_directional_light a) (first_point_light a)
        (filter_mode a) (fbo a).

Definition set_fbo (a : App) (f : FboRef) : App :=
  mkApp (shaders a) (shadow_shader a) (active_shader a) (scene a)
        (camera a) (first_directional_light a) (first_point_light a)
        (filter_mode a) f.

Definition is_instance (cls : LightClass) (l : option Light) : bool :=
  match l, cls with
  | Some l', DirectionalLightClass =>
      match light_class l' with DirectionalLightClass => true | _ => false end
  | Some l', PointLightClass =>
      match light_class l' with PointLightClass => true | _ => false end
  | _, _ => false
  end.

(** The body of the loop of [openScene] over the nodes of the scene. *)
Definition track_light (a : App) (node : SceneNode) : App :=
  let a :=
    if String.eqb (node_type node) "light"
       && is_instance DirectionalLightClass (node_light node) then
      match first_directional_light a with
      | None => set_first_directional_light a (node_light node)
      | Some _ => a
      end
    else a in
  if String.eqb (node_type node) "light"
     && is_instance PointLightClass (node_light node) then
    match first_point_light a with
    | None => set_first_point_light a (node_light node)
    | Some _ => a
    end
  else a.

(** [openScene(gl, filename)], given the scene the loader built. *)
Definition openScene (sc : Scene) : M Scene :=
  (* reset light handlers *)
  a ← get_app;
  set_app (set_first_point_light (set_first_directional_light a None) None);;
  (* loading the scene *)
  a ← get_app;
  set_app (set_scene a (Some sc));;
  call_ext (SceneSetShader (shaders a !! active_shader a));;
  a ← get_app;
  set_app (fold_left track_light (scene_nodes sc) a);;
  mret sc.

(** *** The render passes *)

Definition renderpass_normal (canvas_width canvas_height : Z)
    (excludes : option (list string)) : M unit :=
  a ← get_app;
  _ ← deref "this.scene" (scene a);
  call_ext (SceneSetShader (shaders a !! active_shader a));;
  (* Set viewport and clear canvas *)
  setViewport canvas_width canvas_height;;
  clearCanvas;;
  call_ext (SceneRender excludes).

Definition renderpass_pixel_filter (canvas_width canvas_height : Z)
    : M unit :=
  (* First rendering pass *)
  a ← get_app;
  Fbo_resize (fbo a) canvas_width canvas_height;;
  Fbo_bindFramebuffer (fbo a);;
  renderpass_normal canvas_width canvas_height (Some ["light"]);;
  a ← get_app;
  Fbo_unbindFramebuffer (fbo a);;
  (* Second rendering pass *)
  call_ext (QuadRender (filter_mode a) (getColorTexture (fbo a))
                       (getDepthTexture (fbo a)));;
  (* render only lights *)
  _ ← deref "this.scene" (scene a);
  call_ext (SceneRender (Some ["model"])).

Definition do_depth_pass (f : FboRef) (current_light : Light) : M mat4 :=
  (* compute the scale of the current scene *)
  a ← get_app;
  sc ← deref "this.scene" (scene a);
  let scale := mat4_getScaling (scenegraph_transformation sc) in
  (* first rendering pass *)
  shadow_camera ← deref "shadow_camera"
                    (Light_getCamera current_light scale);
  let shadow_v := getViewMatrix shadow_camera in
  let shadow_p := getProjectionMatrix shadow_camera in
  shader ← deref "shader" (shaders a !! active_shader a);
  (* configure shader parameters *)
  Shader_use shader;;
  setUniform3f shader "u_eye" (getEye shadow_camera);;
  setUniform4x4f shader "u_v" shadow_v;;
  setUniform4x4f shader "u_p" shadow_p;;
  Shader_unuse shader;;
  e ← get_env;
  Fbo_resize f (fbo_width e f) (fbo_height e f);;
  Fbo_bindFramebuffer f;;
  e ← get_env;
  renderpass_normal (fbo_width e f) (fbo_height e f) (Some ["light"]);;
  Fbo_unbindFramebuffer f;;
  (* restore shader parameters *)
  a ← get_app;
  Shader_use shader;;
  setUniform3f shader "u_eye" (getEye (camera a));;
  setUniform4x4f shader "u_v" (getViewMatrix (camera a));;
  setUniform4x4f shader "u_p" (getProjectionMatrix (camera a));;
  Shader_unuse shader;;
  (* Return p * v for shadows *)
  mret (mat4_multiply shadow_p shadow_v).

Definition renderpass_shadowmap (canvas_width canvas_height : Z)
    : M unit :=
  (* compute the light-camera matrices for both lights *)
  a ← get_app;
  u_shadow_pv_directional ←
    match first_directional_light a with
    | Some l => do_depth_pass FboDirectional l
    | None => mret mat4_identity
    end;
  a ← get_app;
  u_shadow_pv_point ←
    match first_point_light a with
    | Some l => do_depth_pass FboPoint l
    | None => mret mat4_identity
    end;
  setViewport canvas_width canvas_height;;
  clearCanvas;;
  (* final rendering pass *)
  a ← get_app;
  sc ← deref "this.scene" (scene a);
  call_ext (SceneSetShader (shadow_shader a));;
  shader ← deref "shader" (shadow_shader a);
  Shader_use shader;;
  (* First, restore camera position *)
  setUniform3f shader "u_eye" (getEye (camera a));;
  setUniform4x4f shader "u_v" (getViewMatrix (camera a));;
  setUniform4x4f shader "u_p" (getProjectionMatrix (camera a));;
  (* Second, pass-in light-camera matrices *)
  setUniform4x4f shader "u_shadow_pv_point" u_shadow_pv_point;;
  setUniform4x4f shader "u_shadow_pv_directional" u_shadow_pv_directional;;
  (* Use textures 3 and 4 since 0-2 are already used *)
  (* Activate the depth texture for the point light *)
  set_app (set_fbo a FboPoint);;
  setUniform1i shader "u_shadow_tex_point" 4;;
  gl_activeTexture 4;;
  a ← get_app;
  gl_bindTexture2D (Some (getDepthTexture (fbo a)));;
  (* Activate the depth texture for the directional light *)
  set_app (set_fbo a FboDirectional);;
  setUniform1i shader "u_shadow_tex_directional" 3;;
  gl_activeTexture 3;;
  a ← get_app;
  gl_bindTexture2D (Some (getDepthTexture (fbo a)));;
  Shader_unuse shader;;
  (* render the scene normally without lights *)
  call_ext (SceneRender (Some ["light"]));;
  (* Finally render the annotation of lights *)
  when_some (first_directional_light a) Light_render;;
  when_some (first_point_light a) Light_render;;
  (* Unbind textures *)
  gl_activeTexture 3;;
  gl_bindTexture2D None;;
  gl_activeTexture 4;;
  gl_bindTexture2D None.

End Passes.

(** ** Notions used to state the properties *)

(** The eye-to-center direction is neither zero nor along the world up
    axis exactly when it has a component in the horizontal plane. *)
Definition off_vertical (eye0 center0 : vec3) : Prop :=
  vx eye0 <> vx center0 \/ vz eye0 <> vz center0.

(** Collaborators that return normally whatever they are asked. *)
Definition never_raises `{Collaborators} : Prop :=
  forall c e, fst (ext_call c e) = None.



(** The calls of the composite pass between the depth passes and the
    gizmos, for a shadow shader [sh] and the two shadow matrices. *)
Definition composite_events (w h : Z) (sh : ShaderRef) (cam : Camera)
    (pv_point pv_directional : mat4) : list Event :=
  [EvViewport 0 0 w h; EvClearColor "#28282B" 1; EvClear;
   EvExt (SceneSetShader (Some sh));
   EvUse sh;
   EvSetUniform sh "u_eye" (U3f (eye cam));
   EvSetUniform sh "u_v" (U4x4f (view cam));
   EvSetUniform sh "u_p" (U4x4f (projection cam));
   EvSetUniform sh "u_shadow_pv_point" (U4x4f pv_point);
   EvSetUniform sh "u_shadow_pv_directional" (U4x4f pv_directional);
   EvSetUniform sh "u_shadow_tex_point" (U1i 4);
   EvActiveTexture 4;
   EvBindTexture2D (Some (DepthTextureOf FboPoint));
   EvSetUniform sh "u_shadow_tex_directional" (U1i 3);
   EvActiveTexture 3;
   EvBindTexture2D (Some (DepthTextureOf FboDirectional));
   EvUnuse sh;
   EvExt (SceneRender (Some ["light"]))].

(** The calls that end the composite pass. *)
Definition unbind_events : list Event :=
  [EvActiveTexture 3; EvBindTexture2D None;
   EvActiveTexture 4; EvBindTexture2D None].



(** ** Concrete inputs *)

(** A stand-in for the library routines left open above; it is only used
    to run the code on concrete inputs. *)
Definition sample_glmatrix : GlMatrixLib := {|
  mat4_lookAt := fun _ _ _ => mat4_identity;
  mat4_perspective := fun _ _ _ _ => mat4_identity;
  mat4_getRotation := fun _ => Q4 0 0 0 1;
  vec3_transformQuat := fun v _ => v;
  vec3_rotateY := fun a _ _ => a;
  mat4_fromRotation := fun _ _ => Some mat4_identity;
  vec3_transformMat4 := fun a _ => a |}.

(** Collaborators that do nothing and return. *)
Definition quiet_collaborators : Collaborators := {|
  ext_call := fun _ e => (None, e) |}.

(** Collaborators whose scene draw raises. *)
Definition failing_scene_draw : Collaborators := {|
  ext_call := fun c e =>
    match c with
    | SceneRender _ => (Some (ExternalError "scene.render"), e)
    | _ => (None, e)
    end |}.

(** The main camera as the application constructs it. *)
Definition main_camera : Camera :=
  @new_PerspectiveCamera sample_glmatrix default_eye default_center
    60 (16 / 9) default_near default_far.

(** A camera looking straight down the world up axis. *)
Definition overhead_camera : Camera :=
  mkCamera (V3 0 1 0) (V3 0 0 0) vec3_create vec3_create vec3_create
           mat4_identity mat4_identity OrthoClass.

Definition ambient_light0 : Light :=
  mkLight AmbientLightClass 0 (V3 1 1 1) 1 None (Some 1%nat) mat4_identity.

Definition directional_light0 : Light :=
  mkLight DirectionalLightClass 0 (V3 1 1 1) 1 None (Some 1%nat)
          mat4_identity.

(** A point light translated to (1, 2, 3). *)
Definition point_light0 : Light :=
  mkLight PointLightClass 0 (V3 1 1 1) 1 None (Some 1%nat)
          (M4 1 0 0 0  0 1 0 0  0 0 1 0  1 2 3 1).

Definition ambient_scene : Scene :=
  mkScene [mkSceneNode "light" (Some ambient_light0)] mat4_identity.

Definition initial_env : Env :=
  mkEnv ∅ None 0 ∅ None (0, 0, 0, 0)%Z
        (fun f => match f with FboPixelFilter => 0 | _ => 1024 end%Z)
        (fun f => match f with FboPixelFilter => 0 | _ => 1024 end%Z).

(** The application after construction with six shaders and after a scene
    with one ambient light was opened. *)
Definition initial_app : App :=
  mkApp [0; 1; 2; 3; 4; 5]%nat (Some 4%nat) 2 (Some ambient_scene)
        main_camera None None (-1) FboPixelFilter.

Definition initial_state : State := mkState initial_app initial_env [].


(** A depth pass for the directional light whose scene draw raises. *)
Definition failing_depth_run : result mat4 * State :=
  @do_depth_pass sample_glmatrix failing_scene_draw
    FboDirectional directional_light0 initial_state.

(** ** Textures ([js/utils/texture.js]) *)

(** The WebGL context is the browser's, not code of the repository; the
    calls [texture.js] makes are modelled as the WebGL specification
    describes them.  A texture object is known by its handle; the context
    keeps, for each handle, the image last uploaded and the sampling
    parameters, and besides the [TEXTURE_2D] binding of the active unit
    and the [UNPACK_FLIP_Y_WEBGL] flag that applies to every later
    upload. *)
Definition TexHandle := nat.

Inductive TexWrap := CLAMP_TO_EDGE | REPEAT.

Inductive TexFilter := NEAREST | LINEAR | NEAREST_MIPMAP_LINEAR.

(** The formats and types handed through to [texImage2D]. *)
Inductive GlFormat := RGBA | UNSIGNED_BYTE | OtherFormat (code : Z).

(** The data handed to [texImage2D]: [null], an array of bytes, or a
    loaded image with its own size. *)
Inductive TexSource :=
| NullPixels
| PixelArray (bytes : list Z)
| LoadedImage (filename : string).

Record TexImage := mkTexImage {
  img_width : Z;
  img_height : Z;
  img_internal_format : GlFormat;
  img_src_format : GlFormat;
  img_src_type : GlFormat;
  img_source : TexSource;
  img_flipped : bool }.

Record TexObject := mkTexObject {
  tex_image : option TexImage;
  tex_mipmap : bool;
  wrap_s : TexWrap;
  wrap_t : TexWrap;
  min_filter : TexFilter;
  mag_filter : TexFilter }.

Record TexGl := mkTexGl {
  next_handle : TexHandle;
  tex_objects : gmap TexHandle TexObject;
  tex_binding : option TexHandle;
  unpack_flip_y : bool }.

(** WebGL: [gl.createTexture()] hands out a handle not in use, for a
    texture without image and with the initial parameters
    ([NEAREST_MIPMAP_LINEAR], [LINEAR], [REPEAT]). *)
Definition gl_createTexture (g : TexGl) : TexHandle * TexGl :=
  (next_handle g,
   mkTexGl (S (next_handle g))
     (<[next_handle g :=
          mkTexObject None false REPEAT REPEAT NEAREST_MIPMAP_LINEAR LINEAR]>
        (tex_objects g))
     (tex_binding g) (unpack_flip_y g)).

(** WebGL: [gl.bindTexture(gl.TEXTURE_2D, t)]. *)
Definition tex_bindTexture (t : option TexHandle) (g : TexGl) : TexGl :=
  mkTexGl (next_handle g) (tex_objects g) t (unpack_flip_y g).

(** WebGL: [gl.pixelStorei(gl.UNPACK_FLIP_Y_WEBGL, flag)]. *)
Definition gl_pixelStorei_flip_y (flag : bool) (g : TexGl) : TexGl :=
  mkTexGl (next_handle g) (tex_objects g) (tex_binding g) flag.

(** A call that changes the bound texture; with nothing bound the context
    records an error and changes nothing. *)
Definition on_bound (f : TexObject -> TexObject) (g : TexGl) : TexGl :=
  match tex_binding g with
  | Some t =>
      mkTexGl (next_handle g) (alter f t (tex_objects g))
              (tex_binding g) (unpack_flip_y g)
  | None => g
  end.

(** WebGL: [gl.texImage2D] replaces the image of the bound texture; the
    upload is flipped as [UNPACK_FLIP_Y_WEBGL] says at the time of the
    call. *)
Definition gl_texImage2D (width height : Z)
    (internal_format src_format src_type : GlFormat) (src : TexSource)
    (g : TexGl) : TexGl :=
  on_bound
    (fun o =>
       mkTexObject
         (Some (mkTexImage width height internal_format src_format src_type
                           src (unpack_flip_y g)))
         false (wrap_s o) (wrap_t o) (min_filter o) (mag_filter o))
    g.

(** WebGL: [gl.generateMipmap(gl.TEXTURE_2D)]. *)
Definition gl_generateMipmap (g : TexGl) : TexGl :=
  on_bound
    (fun o => mkTexObject (tex_image o) true (wrap_s o) (wrap_t o)
                          (min_filter o) (mag_filter o))
    g.

(** WebGL: [gl.texParameteri(gl.TEXTURE_2D, pname, v)] for the four
    parameters the code sets. *)
Definition gl_texParameteri_wrap_s (v : TexWrap) : TexGl -> TexGl :=
  on_bound (fun o => mkTexObject (tex_image o) (tex_mipmap o) v (wrap_t o)
                                 (min_filter o) (mag_filter o)).
Definition gl_texParameteri_wrap_t (v : TexWrap) : TexGl -> TexGl :=
  on_bound (fun o => mkTexObject (tex_image o) (tex_mipmap o) (wrap_s o) v
                                 (min_filter o) (mag_filter o)).
Definition gl_texParameteri_min_filter (v : TexFilter) : TexGl -> TexGl :=
  on_bound (fun o => mkTexObject (tex_image o) (tex_mipmap o) (wrap_s o)
                                 (wrap_t o) v (mag_filter o)).
Definition gl_texParameteri_mag_filter (v : TexFilter) : TexGl -> TexGl :=
  on_bound (fun o => mkTexObject (tex_image o) (tex_mipmap o) (wrap_s o)
                                 (wrap_t o) (min_filter o) v).

(** [new BaseTexture(gl)] *)
Definition new_BaseTexture (g : TexGl) : TexHandle * TexGl :=
  gl_createTexture g.

(** [BaseTexture.bind(gl)] and [BaseTexture.unbind(gl)] *)
Definition BaseTexture_bind (texture : TexHandle) (g : TexGl) : TexGl :=
  tex_bindTexture (Some texture) g.

Definition BaseTexture_unbind (g : TexGl) : TexGl :=
  tex_bindTexture None g.

(** [BaseTexture.createTexture(gl, width, height, internal_format,
    src_format, src_type, pixel, flip_y)] *)
Definition BaseTexture_createTexture (texture : TexHandle) (width height : Z)
    (internal_format src_format src_type : GlFormat) (pixel : TexSource)
    (flip_y : bool) (g : TexGl) : TexGl :=
  let g := BaseTexture_bind texture g in
  (* Set up texture flipping *)
  let g := gl_pixelStorei_flip_y flip_y g in
  (* Set up texture data *)
  let g := gl_texImage2D width height internal_format src_format src_type
                         pixel g in
  (* Set up texture wrapping mode *)
  let g := gl_texParameteri_wrap_s CLAMP_TO_EDGE g in
  let g := gl_texParameteri_wrap_t CLAMP_TO_EDGE g in
  (* Set up texture MIN/MAG filtering *)
  let g := gl_texParameteri_min_filter NEAREST g in
  let g := gl_texParameteri_mag_filter NEAREST g in
  BaseTexture_unbind g.

(** An [ImageTexture]: the fields the constructor assigns. *)
Record ImageTexture := mkImageTexture {
  it_texture : TexHandle;
  it_filename : string }.

(** [new ImageTexture(filename, gl, flip_y)], up to the point where the
    image starts to load: the texture holds one opaque blue pixel. *)
Definition new_ImageTexture (filename : string) (flip_y : bool) (g : TexGl)
    : ImageTexture * TexGl :=
  let '(texture, g) := new_BaseTexture g in
  let pixel := PixelArray [0; 0; 255; 255]%Z in
  let g := BaseTexture_createTexture texture 1 1 RGBA RGBA UNSIGNED_BYTE
                                     pixel flip_y g in
  (mkImageTexture texture filename, g).

(** The [image.onload] handler the constructor installs, run when an image
    of the given size has arrived. *)
Definition ImageTexture_onload (t : ImageTexture) (width height : Z)
    (g : TexGl) : TexGl :=
  (* Bind the texture and upload image data to the texture *)
  let g := tex_bindTexture (Some (it_texture t)) g in
  let g := gl_texImage2D width height RGBA RGBA UNSIGNED_BYTE
                         (LoadedImage (it_filename t)) g in
  (* Generate mipmap from the full-size texture *)
  let g := gl_generateMipmap g in
  let g := gl_texParameteri_wrap_s REPEAT g in
  let g := gl_texParameteri_wrap_t REPEAT g in
  let g := gl_texParameteri_min_filter NEAREST_MIPMAP_LINEAR g in
  gl_texParameteri_mag_filter LINEAR g.

(** A [RenderTexture]: the fields the constructor assigns. *)
Record RenderTexture := mkRenderTexture {
  rt_texture : TexHandle;
  rt_internal_format : GlFormat;
  rt_src_format : GlFormat;
  rt_src_type : GlFormat;
  rt_width : Z;
  rt_height : Z }.

(** [new RenderTexture(gl, internal_format, src_format, src_type)] *)
Definition new_RenderTexture
    (internal_format src_format src_type : GlFormat) (g : TexGl)
    : RenderTexture * TexGl :=
  let '(texture, g) := new_BaseTexture g in
  (mkRenderTexture texture internal_format src_format src_type 0 0, g).

(** [RenderTexture.resize(gl, width, height)] *)
Definition RenderTexture_resize (width height : Z)
    (t : RenderTexture) (g : TexGl) : RenderTexture * TexGl :=
  (mkRenderTexture (rt_texture t) (rt_internal_format t) (rt_src_format t)
                   (rt_src_type t) width height,
   BaseTexture_createTexture (rt_texture t) width height
     (rt_internal_format t) (rt_src_format t) (rt_src_type t)
     NullPixels false g).

(** Handles are handed out in increasing order: every texture that exists
    has a handle below the next one. *)
Definition handles_fresh (g : TexGl) : Prop :=
  forall t, is_Some (tex_objects g !! t) -> (t < next_handle g)%nat.

(** The texture object [createTexture] leaves behind. *)
Definition created_object (width height : Z)
    (internal_format src_format src_type : GlFormat) (pixel : TexSource)
    (flip_y : bool) : TexObject :=
  mkTexObject
    (Some (mkTexImage width height internal_format src_format src_type
                      pixel flip_y))
    false CLAMP_TO_EDGE CLAMP_TO_EDGE NEAREST NEAREST.

(** A texture can be sampled when it has an image and, if its minifying
    filter reads mipmaps, the mipmaps of that image. *)
Definition sampleable (o : TexObject) : Prop :=
  is_Some (tex_image o)
  /\ (min_filter o = NEAREST_MIPMAP_LINEAR -> tex_mipmap o = true).

(** A context in which nothing was created yet. *)
Definition empty_tex_gl : TexGl := mkTexGl 0%nat ∅ None false.

(** The texture object the [onload] handler of an image texture leaves
    behind when the context's flip flag is [flipped]. *)
Definition loaded_object (filename : string) (width height : Z)
    (flipped : bool) : TexObject :=
  mkTexObject
    (Some (mkTexImage width height RGBA RGBA UNSIGNED_BYTE
                      (LoadedImage filename) flipped))
    true REPEAT REPEAT NEAREST_MIPMAP_LINEAR LINEAR.


(** ** Notions used to state the camera properties *)

(** A frame that does not roll: [right] is horizontal and [up] does not
    point below the horizon. *)
Definition upright_frame (c : Camera) : Prop :=
  vy (right c) = 0 /\ 0 <= vy (up c).

(** The distance from the center of focus to the eye. *)
Definition focus_distance (c : Camera) : R :=
  vec3_length (vec3_sub (eye c) (center c)).

(** A stand-in for the library in which [mat4.fromRotation] answers [null]
    for the zero axis, as the library does for every axis shorter than
    its epsilon. *)
Definition strict_glmatrix : GlMatrixLib := {|
  mat4_lookAt := fun _ _ _ => mat4_identity;
  mat4_perspective := fun _ _ _ _ => mat4_identity;
  mat4_getRotation := fun _ => Q4 0 0 0 1;
  vec3_transformQuat := fun v _ => v;
  vec3_rotateY := fun a _ _ => a;
  mat4_fromRotation := fun _ axis =>
    if Rgt_dec (vec3_dot axis axis) 0 then Some mat4_identity else None;
  vec3_transformMat4 := fun a _ => a |}.

(** Input with only the middle button held (pan). *)
Definition pan_input : InputState := {|
  isMouseDown := fun b => Nat.eqb b 1;
  isKeyDown := fun _ => false;
  getMouseDx := 2;
  getMouseDy := 1 |}.

(** Input with only the right button held (zoom), moving by [dy]. *)
Definition zoom_input (dy : R) : InputState := {|
  isMouseDown := fun b => Nat.eqb b 2;
  isKeyDown := fun _ => false;
  getMouseDx := 0;
  getMouseDy := dy |}.

(** Input with only the left button held (rotate). *)
Definition rotate_input : InputState := {|
  isMouseDown := fun b => Nat.eqb b 0;
  isKeyDown := fun _ => false;
  getMouseDx := 1;
  getMouseDy := 1 |}.

(** A camera three units in front of the origin on the x axis. *)
Definition side_camera : Camera :=
  @new_OrthoCamera sample_glmatrix (V3 3 0 0) (V3 0 0 0)
    (-1) 1 (-1) 1 default_near default_far.

(** ** Uniform names of the lights *)

(** The names [update()] writes, as the template strings of
    [js/utils/light.js] build them from the light's id. *)
Definition ambient_color_name (i : Z) : string :=
  "u_lights_ambient[" +:+ pretty i +:+ "].color".
Definition ambient_intensity_name (i : Z) : string :=
  "u_lights_ambient[" +:+ pretty i +:+ "].intensity".
Definition directional_direction_name (i : Z) : string :=
  "u_lights_directional[" +:+ pretty i +:+ "].direction".
Definition directional_color_name (i : Z) : string :=
  "u_lights_directional[" +:+ pretty i +:+ "].color".
Definition directional_intensity_name (i : Z) : string :=
  "u_lights_directional[" +:+ pretty i +:+ "].intensity".
Definition point_position_name (i : Z) : string :=
  "u_lights_point[" +:+ pretty i +:+ "].position".
Definition point_color_name (i : Z) : string :=
  "u_lights_point[" +:+ pretty i +:+ "].color".
Definition point_intensity_name (i : Z) : string :=
  "u_lights_point[" +:+ pretty i +:+ "].intensity".

(** The last character of a string. *)
Fixpoint last_char (s : string) : option Ascii.ascii :=
  match s with
  | EmptyString => None
  | String a s' =>
      match s' with
      | EmptyString => Some a
      | String _ _ => last_char s'
      end
  end.

(** Lights that write to the shader program 2. *)
Definition ambient_light_a : Light :=
  mkLight AmbientLightClass 0 (V3 1 0 0) 1 (Some 2%nat) (Some 1%nat)
          mat4_identity.
Definition ambient_light_b : Light :=
  mkLight AmbientLightClass 1 (V3 0 1 0) (1 / 2) (Some 2%nat) (Some 1%nat)
          mat4_identity.
Definition directional_light_a : Light :=
  mkLight DirectionalLightClass 0 (V3 1 1 1) 1 (Some 2%nat) (Some 1%nat)
          mat4_identity.
Definition point_light_a : Light :=
  mkLight PointLightClass 0 (V3 1 1 0) 2 (Some 2%nat) (Some 1%nat)
          (M4 1 0 0 0  0 1 0 0  0 0 1 0  1 2 3 1).

(** Whether two strings differ at a position both of them have. *)
Fixpoint diverge (p1 p2 : string) : bool :=
  match p1, p2 with
  | String a p1', String b p2' =>
      if Ascii.eqb a b then diverge p1' p2' else true
  | _, _ => false
  end.

(** ** Notions used to state the properties of the shadow pass *)

Section ShadowPassNotions.
Context `{GlMatrixLib}.

(** The matrix a light slot contributes to the composite pass: projection
    times view of the light's camera at the scale of the scene, and the
    identity for an empty slot. *)
Definition shadow_matrix (sc : Scene) (o : option Light) : mat4 :=
  match o with
  | Some l =>
      match Light_getCamera l
              (mat4_getScaling (scenegraph_transformation sc)) with
      | Some cam =>
          mat4_multiply (getProjectionMatrix cam) (getViewMatrix cam)
      | None => mat4_identity
      end
  | None => mat4_identity
  end.

(** What the shadow pass dereferences for a tracked light: its camera, the
    active shader (for the depth pass) and its own shader (for the gizmo). *)
Definition light_ready (a : App) (sc : Scene) (l : Light) : Prop :=
  is_Some (Light_getCamera l
             (mat4_getScaling (scenegraph_transformation sc)))
  /\ is_Some (shaders a !! active_shader a)
  /\ is_Some (shader l).

(** Everything the shadow pass dereferences exists. *)
Definition shadowmap_ready (a : App) : Prop :=
  exists sc,
    scene a = Some sc
    /\ is_Some (shadow_shader a)
    /\ (forall l, first_directional_light a = Some l -> light_ready a sc l)
    /\ (forall l, first_point_light a = Some l -> light_ready a sc l).

End ShadowPassNotions.

(** A scene with an ambient, a point and two directional lights. *)
Definition directional_light1 : Light :=
  mkLight DirectionalLightClass 1 (V3 1 0 0) 1 None (Some 1%nat)
          mat4_identity.

Definition lit_scene : Scene :=
  mkScene [mkSceneNode "model" None;
           mkSceneNode "light" (Some ambient_light0);
           mkSceneNode "light" (Some directional_light0);
           mkSceneNode "light" (Some point_light0);
           mkSceneNode "light" (Some directional_light1)]
          mat4_identity.

(** The application with the lights of [lit_scene] tracked. *)
Definition lit_app : App :=
  mkApp [0; 1; 2; 3; 4; 5]%nat (Some 4%nat) 2 (Some lit_scene)
        main_camera (Some directional_light0) (Some point_light0) (-1)
        FboPixelFilter.

Definition lit_state : State := mkState lit_app initial_env [].

(** The application before any scene was opened. *)
Definition empty_app : App :=
  mkApp [0; 1; 2; 3; 4; 5]%nat (Some 4%nat) 2 None
        main_camera None None (-1) FboPixelFilter.

Definition empty_state : State := mkState empty_app initial_env [].

(** ** Notions used to state the properties of [openScene] *)

(** The test of the loop of [openScene] for a light node of a class. *)
Definition is_light_of (cls : LightClass) (node : SceneNode) : bool :=
  String.eqb (node_type node) "light" && is_instance cls (node_light node).

(** The light of the first node of a list that passes the test. *)
Definition first_light (cls : LightClass) (nodes : list SceneNode)
    : option Light :=
  match find (is_light_of cls) nodes with
  | Some node => node_light node
  | None => None
  end.

(** Collaborators whose [setShader] raises. *)
Definition failing_set_shader : Collaborators := {|
  ext_call := fun c e =>
    match c with
    | SceneSetShader _ => (Some (ExternalError "scene.setShader"), e)
    | _ => (None, e)
    end |}.

(** ** Construction and camera control ([js/app/webglapp.js]) *)

Section AppStates.
Context `{GlMatrixLib}.

Definition set_camera (a : App) (c : Camera) : App :=
  mkApp (shaders a) (shadow_shader a) (active_shader a) (scene a)
        c (first_directional_light a) (first_point_light a)
        (filter_mode a) (fbo a).

(** [for (let x of xs) { body }] *)
Fixpoint for_of {A} (xs : list A) (body : A -> M unit) : M unit :=
  match xs with
  | [] => mret tt
  | x :: xs' => body x;; for_of xs' body
  end.



(** The case ['Camera'] of the control switch of [updateAppStates]:
    [this.camera.update(delta_time)] assigns to the camera in place, also
    when it raises. *)
Definition updateAppStates_camera (inp : InputState) (delta_time : R)
    : M unit :=
  a ← get_app;
  let '(r, c) := BaseCamera_update inp delta_time (camera a) in
  set_app (set_camera a c);;
  match r with
  | Throw e => throw e
  | Ok view_dirty =>
      if view_dirty then
        a ← get_app;
        for_of (shaders a) (fun shader =>
          Shader_use shader;;
          a ← get_app;
          setUniform3f shader "u_eye" (getEye (camera a));;
          a ← get_app;
          setUniform4x4f shader "u_v" (getViewMatrix (camera a));;
          Shader_unuse shader)
      else mret tt
  end.

End AppStates.

(** Every shader program holds the eye and the view matrix of the main
    camera. *)
Definition camera_synced (st : State) : Prop :=
  forall s, In s (shaders (app st)) ->
    uniforms_of (env st) s !! "u_eye" = Some (U3f (eye (camera (app st))))
    /\ uniforms_of (env st) s !! "u_v" = Some (U4x4f (view (camera (app st)))).

(** An application with two shaders whose programs hold the eye and the
    view matrix of the main camera. *)
Definition synced_uniforms : gmap string UniformValue :=
  <["u_eye" := U3f (eye main_camera)]>
    (<["u_v" := U4x4f (view main_camera)]> ∅).

Definition synced_state : State :=
  mkState
    (mkApp [0; 1]%nat (Some 0%nat) 2 None main_camera None None (-1)
           FboPixelFilter)
    (mkEnv (<[0%nat := synced_uniforms]> (<[1%nat := synced_uniforms]> ∅))
           None 0 ∅ None (0, 0, 0, 0)%Z (fun _ => 0%Z) (fun _ => 0%Z))
    [].

(** An application whose camera looks straight down. *)
Definition overhead_state : State :=
  mkState
    (mkApp [0; 1]%nat (Some 0%nat) 2 None
           (@new_OrthoCamera strict_glmatrix (V3 0 1 0) (V3 0 0 0)
              (-1) 1 (-1) 1 default_near default_far)
           None None (-1) FboPixelFilter)
    initial_env [].

(** ** Scene-node control ([updateSceneNode] of [js/app/webglapp.js]) *)

(** Modelled from the spec: [mat4.fromScaling(out, v)] and
    [mat4.fromTranslation(out, v)] of gl-matrix, the scaling and the
    translation by [v]. *)
Definition mat4_fromScaling (v : vec3) : mat4 :=
  M4 (vx v) 0 0 0
     0 (vy v) 0 0
     0 0 (vz v) 0
     0 0 0 1.

Definition mat4_fromTranslation (v : vec3) : mat4 :=
  M4 1 0 0 0
     0 1 0 0
     0 0 1 0
     (vx v) (vy v) (vz v) 1.

(** Modelled from the spec: [mat4.invert(out, a)] of gl-matrix, left open;
    it answers [null] for a matrix without inverse. *)
Class Mat4Invert := {
  mat4_invert : mat4 -> option mat4 }.

(** What [updateSceneNode] reads of a scene node: [getTransformation()]
    and [getWorldTransformation()], the latter possibly [null]. *)
Record NodeTransforms := mkNodeTransforms {
  node_transformation : mat4;
  node_world_transformation : option mat4 }.

(** [m[12] = 0, m[13] = 0, m[14] = 0] *)
Definition clear_translation (m : mat4) : mat4 :=
  M4 (e0 m) (e1 m) (e2 m) (e3 m)
     (e4 m) (e5 m) (e6 m) (e7 m)
     (e8 m) (e9 m) (e10 m) (e11 m)
     0 0 0 (e15 m).

Section SceneNodeControl.
Context `{GlMatrixLib} `{Mat4Invert}.

(** [updateSceneNode(node, delta_time)]: the matrix handed to
    [node.setTransformation], [None] when the node is left alone, or the
    exception raised on the way ([mat4.multiply] and [mat4.clone] read the
    entries of their arguments, so they raise on [null]). *)
Definition updateSceneNode (inp : InputState) (delta_time : R)
    (cam : Camera) (node : NodeTransforms) : result (option mat4) :=
  let node_dirty := false in
  let translation := mat4_create in
  let rotation := mat4_create in
  let scale := mat4_create in
  (* Control - Scale *)
  let '(scale, node_dirty) :=
    if isMouseDown inp 2 then
      let factor := 1 + getMouseDy inp * delta_time in
      (mat4_fromScaling (V3 factor factor factor), true)
    else (scale, node_dirty) in
  let up0 := up cam in
  let right0 := right cam in
  (* Control - Rotate *)
  let rotated : result (mat4 * bool) :=
    if isMouseDown inp 0 && negb (isKeyDown inp " ") then
      match mat4_fromRotation
              (deg2rad (10 * getMouseDx inp * delta_time)) up0,
            mat4_fromRotation
              (deg2rad (10 * getMouseDy inp * delta_time)) right0 with
      | Some rotation_up, Some rotation_right =>
          Ok (mat4_multiply rotation_right rotation_up, true)
      | _, _ => Throw (TypeError "rotation is null")
      end
    else Ok (rotation, node_dirty) in
  match rotated with
  | Throw e => Throw e
  | Ok (rotation, node_dirty) =>
      (* Control - Translate *)
      let '(translation, node_dirty) :=
        if isMouseDown inp 1
           || (isMouseDown inp 0 && isKeyDown inp " ") then
          (mat4_fromTranslation
             (vec3_add
                (vec3_scale right0 (0.75 * getMouseDx inp * delta_time))
                (vec3_scale up0 (-0.75 * getMouseDy inp * delta_time))),
           true)
        else (translation, node_dirty) in
      (* Update node transformation if needed *)
      if node_dirty then
        match node_world_transformation node with
        | None => Throw (TypeError "world transformation is null")
        | Some world =>
            let world_rotation_scale := clear_translation world in
            match mat4_invert world_rotation_scale with
            | None => Throw (TypeError "inverse is null")
            | Some world_rotation_scale_inverse =>
                let transformation := node_transformation node in
                (* Fourth, apply the scaling *)
                let transformation :=
                  mat4_multiply transformation scale in
                (* Third, remove the full world rotation and scale *)
                let transformation :=
                  mat4_multiply transformation
                                world_rotation_scale_inverse in
                (* Second, apply rotation and translation *)
                let transformation :=
                  mat4_multiply transformation translation in
                let transformation :=
                  mat4_multiply transformation rotation in
                (* First, apply the full world rotation and scale *)
                let transformation :=
                  mat4_multiply transformation world_rotation_scale in
                Ok (Some transformation)
            end
        end
      else Ok None
  end.

End SceneNodeControl.

(** A stand-in for [mat4.invert] that knows the inverse of the identity
    only. *)
Definition identity_inverse : Mat4Invert := {|
  mat4_invert := fun m =>
    if Req_dec_T (e0 m + e5 m + e10 m + e15 m) 4 then Some mat4_identity
    else None |}.

(** A node of the scene graph under an untransformed parent, moved to
    (1, 2, 3), and the root, which has no world transformation. *)
Definition child_node : NodeTransforms :=
  mkNodeTransforms (M4 1 0 0 0  0 1 0 0  0 0 1 0  1 2 3 1)
                   (Some (M4 1 0 0 0  0 1 0 0  0 0 1 0  1 2 3 1)).

Definition root_node : NodeTransforms :=
  mkNodeTransforms mat4_identity None.

(** * Properties *)

(** ** Vector algebra *)

Lemma vec3_eta (v : vec3) : v = V3 (vx v) (vy v) (vz v).
Proof. destruct v; reflexivity. Qed.

Lemma vec3_dot_self_nonneg (v : vec3) : 0 <= vec3_dot v v.
Proof. unfold vec3_dot. nra. Qed.

Lemma vec3_length_sqrt_dot (v : vec3) : vec3_length v = sqrt (vec3_dot v v).
Proof. reflexivity. Qed.

Lemma vec3_normalize_zero : vec3_normalize (V3 0 0 0) = V3 0 0 0.
Proof.
  unfold vec3_normalize; simpl.
  destruct (Rgt_dec (0 * 0 + 0 * 0 + 0 * 0) 0) as [Hgt | _].
  - exfalso; lra.
  - f_equal; ring.
Qed.

Lemma vec3_normalize_scale (v : vec3) :
  0 < vec3_dot v v ->
  vec3_normalize v = vec3_scale v (1 / sqrt (vec3_dot v v)).
Proof.
  intros Hpos. unfold vec3_normalize, vec3_scale, vec3_dot in *.
  destruct (Rgt_dec _ 0) as [_ | Hn]; [reflexivity | exfalso; apply Hn; lra].
Qed.

Lemma inv_sqrt_facts (n : R) :
  0 < n -> 0 < 1 / sqrt n /\ (1 / sqrt n) * (1 / sqrt n) * n = 1.
Proof.
  intros Hn.
  assert (Hs : 0 < sqrt n) by (apply sqrt_lt_R0; exact Hn).
  assert (Hsq : sqrt n * sqrt n = n) by (apply sqrt_sqrt; lra).
  split.
  - apply Rdiv_lt_0_compat; lra.
  - rewrite <- Hsq at 3. field. lra.
Qed.

Lemma vec3_dot_scale (v : vec3) (k : R) :
  vec3_dot (vec3_scale v k) (vec3_scale v k) = k * k * vec3_dot v v.
Proof. unfold vec3_dot, vec3_scale; simpl; ring. Qed.

Lemma vec3_normalize_dot_self (v : vec3) :
  0 < vec3_dot v v -> vec3_dot (vec3_normalize v) (vec3_normalize v) = 1.
Proof.
  intros Hpos. rewrite vec3_normalize_scale by exact Hpos.
  rewrite vec3_dot_scale. apply inv_sqrt_facts; exact Hpos.
Qed.

Lemma vec3_normalize_unit (v : vec3) :
  0 < vec3_dot v v -> vec3_length (vec3_normalize v) = 1.
Proof.
  intros Hpos. rewrite vec3_length_sqrt_dot, vec3_normalize_dot_self by exact Hpos.
  apply sqrt_1.
Qed.

(** Normalising keeps a vector inside every plane through the origin. *)
Lemma vec3_normalize_orthogonal_l (v w : vec3) :
  vec3_dot v w = 0 -> vec3_dot (vec3_normalize v) w = 0.
Proof.
  intros Hvw. unfold vec3_normalize.
  set (k := if Rgt_dec _ 0 then _ else _).
  unfold vec3_dot in *; simpl.
  replace (vx v * k * vx w + vy v * k * vy w + vz v * k * vz w)
    with (k * (vx v * vx w + vy v * vy w + vz v * vz w)) by ring.
  rewrite Hvw; ring.
Qed.

Lemma vec3_dot_comm (v w : vec3) : vec3_dot v w = vec3_dot w v.
Proof. unfold vec3_dot; ring. Qed.

Lemma vec3_normalize_orthogonal_r (v w : vec3) :
  vec3_dot w v = 0 -> vec3_dot w (vec3_normalize v) = 0.
Proof.
  intros Hwv. rewrite vec3_dot_comm. apply vec3_normalize_orthogonal_l.
  rewrite vec3_dot_comm; exact Hwv.
Qed.

Lemma vec3_cross_orthogonal_l (a b : vec3) : vec3_dot a (vec3_cross a b) = 0.
Proof. unfold vec3_dot, vec3_cross; simpl; ring. Qed.

Lemma vec3_cross_orthogonal_r (a b : vec3) : vec3_dot b (vec3_cross a b) = 0.
Proof. unfold vec3_dot, vec3_cross; simpl; ring. Qed.

(** Lagrange's identity. *)
Lemma vec3_cross_dot_self (a b : vec3) :
  vec3_dot (vec3_cross a b) (vec3_cross a b)
  = vec3_dot a a * vec3_dot b b - vec3_dot a b * vec3_dot a b.
Proof. unfold vec3_dot, vec3_cross; simpl; ring. Qed.

Lemma square_pos (x : R) : x <> 0 -> 0 < x * x.
Proof. intros Hx. destruct (Rtotal_order x 0) as [Hl | [He | Hg]]; nra. Qed.

Lemma horizontal_part_pos (x y z : R) :
  x <> 0 \/ z <> 0 -> 0 < x * x + y * y + z * z.
Proof.
  intros [Hx | Hz].
  - pose proof (square_pos x Hx). nra.
  - pose proof (square_pos z Hz). nra.
Qed.

Lemma view_space_vectors_orthonormal (eye0 center0 : vec3) :
  off_vertical eye0 center0 ->
  let f := vec3_normalize (vec3_sub eye0 center0) in
  let r := vec3_normalize (vec3_cross (V3 0 1 0) f) in
  let u := vec3_normalize (vec3_cross f r) in
  orthonormal_frame f r u.
Proof.
  intros Hoff f r u.
  set (d := vec3_sub eye0 center0) in *.
  assert (Hd : 0 < vec3_dot d d).
  { unfold d, vec3_dot, vec3_sub; simpl. apply horizontal_part_pos.
    destruct Hoff; [left | right]; lra. }
  assert (Hff : vec3_dot f f = 1) by (apply vec3_normalize_dot_self; exact Hd).
  set (c1 := vec3_cross (V3 0 1 0) f) in *.
  assert (Hc1 : 0 < vec3_dot c1 c1).
  { unfold c1, f. rewrite vec3_normalize_scale by exact Hd.
    destruct (inv_sqrt_facts _ Hd) as [Hk _].
    set (k := 1 / sqrt (vec3_dot d d)) in *.
    unfold vec3_dot at 1. unfold vec3_cross, vec3_scale; simpl.
    assert (Hxz : vx d <> 0 \/ vz d <> 0).
    { unfold d, vec3_sub; simpl. destruct Hoff; [left | right]; lra. }
    assert (Hk2 : 0 < k * k) by nra.
    pose proof (horizontal_part_pos (vx d) 0 (vz d) Hxz) as Hh.
    unfold d, vec3_sub in Hh; simpl in Hh.
    match goal with
    | Hh : 0 < ?h |- 0 < ?g => replace g with (k * k * h) by ring
    end.
    apply Rmult_lt_0_compat; assumption. }
  assert (Hrr : vec3_dot r r = 1) by (apply vec3_normalize_dot_self; exact Hc1).
  assert (Hfr : vec3_dot f r = 0).
  { apply vec3_normalize_orthogonal_r. apply vec3_cross_orthogonal_r. }
  set (c2 := vec3_cross f r) in *.
  assert (Hc2 : vec3_dot c2 c2 = 1).
  { unfold c2. rewrite vec3_cross_dot_self, Hff, Hrr, Hfr. ring. }
  assert (Hc2pos : 0 < vec3_dot c2 c2) by lra.
  repeat split.
  - apply vec3_normalize_unit; exact Hd.
  - apply vec3_normalize_unit; exact Hc1.
  - apply vec3_normalize_unit; exact Hc2pos.
  - exact Hfr.
  - apply vec3_normalize_orthogonal_r. apply vec3_cross_orthogonal_l.
  - apply vec3_normalize_orthogonal_r. apply vec3_cross_orthogonal_r.
Qed.

(** ** Cameras *)

Section CameraProperties.
Context `{GlMatrixLib}.

Lemma updateViewSpaceVectors_eye (c : Camera) :
  eye (BaseCamera_updateViewSpaceVectors c) = eye c
  /\ center (BaseCamera_updateViewSpaceVectors c) = center c.
Proof. split; reflexivity. Qed.

(** The three vectors depend on [eye] and [center] only. *)
Lemma updateViewSpaceVectors_frame (c c' : Camera) :
  eye c = eye c' -> center c = center c' ->
  forward (BaseCamera_updateViewSpaceVectors c)
    = forward (BaseCamera_updateViewSpaceVectors c')
  /\ right (BaseCamera_updateViewSpaceVectors c)
    = right (BaseCamera_updateViewSpaceVectors c')
  /\ up (BaseCamera_updateViewSpaceVectors c)
    = up (BaseCamera_updateViewSpaceVectors c').
Proof.
  intros He Hc. unfold BaseCamera_updateViewSpaceVectors; simpl.
  rewrite He, Hc. repeat split.
Qed.

Lemma updateViewSpaceVectors_orthonormal (c : Camera) :
  off_vertical (eye c) (center c) ->
  camera_frame_orthonormal (BaseCamera_updateViewSpaceVectors c).
Proof.
  intros Hoff. unfold camera_frame_orthonormal; simpl.
  apply view_space_vectors_orthonormal; exact Hoff.
Qed.

(** When the eye-to-center direction is zero or along the world up axis,
    the cross product with that axis vanishes, and [right] and [up] are
    left at the zero vector. *)
Lemma updateViewSpaceVectors_vertical (c : Camera) :
  vx (eye c) = vx (center c) -> vz (eye c) = vz (center c) ->
  right (BaseCamera_updateViewSpaceVectors c) = V3 0 0 0.
Proof.
  intros Hx Hz. unfold BaseCamera_updateViewSpaceVectors; cbn [right].
  set (f := vec3_normalize (vec3_sub (eye c) (center c))).
  assert (Hfx : vx f = 0).
  { unfold f, vec3_normalize, vec3_sub; cbn [vx]. rewrite Hx. ring. }
  assert (Hfz : vz f = 0).
  { unfold f, vec3_normalize, vec3_sub; cbn [vz]. rewrite Hz. ring. }
  unfold vec3_normalize at 1. unfold vec3_cross; cbn [vx vy vz].
  rewrite Hfx, Hfz.
  set (k := if Rgt_dec _ 0 then _ else _).
  f_equal; ring.
Qed.

(** The constructor leaves the vectors [updateViewSpaceVectors] computes. *)
Lemma new_BaseCamera_frame (eye0 center0 : vec3) proj cls :
  off_vertical eye0 center0 ->
  camera_frame_orthonormal (new_BaseCamera eye0 center0 proj cls).
Proof.
  intros Hoff. unfold camera_frame_orthonormal, new_BaseCamera; simpl.
  apply view_space_vectors_orthonormal; exact Hoff.
Qed.

(** A call of [update] that reports a change has recomputed the vectors
    from the eye and center it leaves. *)
Lemma BaseCamera_update_dirty inp dt (c c' : Camera) :
  BaseCamera_update inp dt c = (Ok true, c') ->
  exists c1,
    let c2 := BaseCamera_updateViewSpaceVectors c1 in
    c' = set_view c2 (mat4_lookAt (eye c2) (center c2) (up c2)).
Proof.
  unfold BaseCamera_update.
  destruct (isMouseDown inp 2);
    destruct (isMouseDown inp 0 && negb (isKeyDown inp " "));
    try destruct (mat4_fromRotation _ _);
    destruct (isMouseDown inp 1 || isMouseDown inp 0 && isKeyDown inp " ");
    cbv beta iota zeta; intros Heq.
  all: try discriminate Heq.
  all: injection Heq as Hc.
  all: eexists; symmetry; exact Hc.
Qed.

(** A call of [update] that reports no change has assigned nothing. *)
Lemma BaseCamera_update_clean inp dt (c c' : Camera) :
  BaseCamera_update inp dt c = (Ok false, c') -> c' = c.
Proof.
  unfold BaseCamera_update.
  destruct (isMouseDown inp 2);
    destruct (isMouseDown inp 0 && negb (isKeyDown inp " "));
    try destruct (mat4_fromRotation _ _);
    destruct (isMouseDown inp 1 || isMouseDown inp 0 && isKeyDown inp " ");
    cbv beta iota zeta; intros Heq.
  all: try discriminate Heq.
  all: injection Heq as Hc; symmetry; exact Hc.
Qed.

(** C9 (amended).  For a camera whose eye-to-center direction has a
    horizontal component (so it is neither zero nor parallel to the world
    up axis), [updateViewSpaceVectors] leaves [forward], [right] and [up]
    mutually orthogonal unit vectors; a call of [update] that changed the
    eye or the center and returned has recomputed them, and one that
    reports no change has left the camera as it was. *)
Theorem C9_view_space_vectors (c : Camera) :
  off_vertical (eye c) (center c) ->
  camera_frame_orthonormal (BaseCamera_updateViewSpaceVectors c)
  /\ (forall inp dt c0,
        BaseCamera_update inp dt c0 = (Ok true, c) ->
        camera_frame_orthonormal c)
  /\ (forall inp dt c',
        BaseCamera_update inp dt c = (Ok false, c') -> c' = c).
Proof.
  intros Hoff. split; [| split].
  - apply updateViewSpaceVectors_orthonormal; exact Hoff.
  - intros inp dt c0 Hrun.
    destruct (BaseCamera_update_dirty _ _ _ _ Hrun) as [c1 ->].
    simpl in Hoff. unfold camera_frame_orthonormal; simpl.
    apply view_space_vectors_orthonormal; exact Hoff.
  - intros inp dt c' Hrun. eapply BaseCamera_update_clean; exact Hrun.
Qed.

End CameraProperties.

(** ** Shadow cameras of the lights *)

Section LightCameraProperties.
Context `{GlMatrixLib}.

Lemma vec3_sub_create : vec3_sub vec3_create vec3_create = V3 0 0 0.
Proof. unfold vec3_sub, vec3_create; simpl; f_equal; lra. Qed.

Lemma vec3_add_create : vec3_add vec3_create vec3_create = V3 0 0 0.
Proof. unfold vec3_add, vec3_create; simpl; f_equal; lra. Qed.

Lemma vec3_dot_zero_r (v : vec3) : vec3_dot v (V3 0 0 0) = 0.
Proof. unfold vec3_dot; simpl; ring. Qed.

Lemma rad2deg_right_angle : rad2deg (PI / 2) * 2 = 180.
Proof. unfold rad2deg. field. apply PI_neq0. Qed.

(** The doubled angle, capped at 180 degrees, lies between 0 and 180
    whatever the cosine it is taken from. *)
Lemma fovy_estimate_range (d : R) :
  0 <= Rmin (rad2deg (acos d) * 2) 180 <= 180.
Proof.
  pose proof (acos_bound d) as [Hlo _].
  pose proof PI_RGT_0 as Hpi.
  assert (Hdeg : 0 <= rad2deg (acos d) * 2).
  { unfold rad2deg.
    apply Rmult_le_pos; [| lra].
    apply Rmult_le_pos; [nra |].
    left; apply Rinv_0_lt_compat; exact Hpi. }
  split.
  - apply Rmin_glb; lra.
  - apply Rmin_r.
Qed.

(** The faces of the view volume of an orthographic projection: the
    planes x = left, x = right, y = bottom, y = top, z = -near and
    z = -far are sent to the faces -1 and 1 of the clip cube. *)
Lemma mat4_ortho_faces (l r b t n f : R) :
  l <> r -> b <> t -> n <> f ->
  let P := mat4_ortho l r b t n f in
  (e0 P * l + e12 P = -1 /\ e0 P * r + e12 P = 1)
  /\ (e5 P * b + e13 P = -1 /\ e5 P * t + e13 P = 1)
  /\ (e10 P * (- n) + e14 P = -1 /\ e10 P * (- f) + e14 P = 1).
Proof.
  intros Hlr Hbt Hnf P. unfold P, mat4_ortho; simpl.
  repeat split; field; lra.
Qed.

(** C2 (amended).  For a scene scale of positive length [r], the camera
    of a directional light is orthographic with left/right and bottom/top
    bounds [-r] and [r]; its near and far planes are the constructor
    defaults 0.01 and 100.  Its projection sends x = -r, r and y = -r, r,
    and z = -0.01, -100, to the faces -1, 1 of the clip cube. *)
Theorem C2_directional_camera_bounds (l : Light) (s : vec3) :
  0 < vec3_length s ->
  let r := vec3_length s in
  let cam := DirectionalLight_getCamera l s in
  let P := projection cam in
  cam_class cam = OrthoClass
  /\ P = mat4_ortho (- r) r (- r) r (1 / 100) 100
  /\ (e0 P * (- r) + e12 P = -1 /\ e0 P * r + e12 P = 1)
  /\ (e5 P * (- r) + e13 P = -1 /\ e5 P * r + e13 P = 1)
  /\ (e10 P * (- (1 / 100)) + e14 P = -1 /\ e10 P * (- 100) + e14 P = 1).
Proof.
  intros Hpos r cam P.
  split; [reflexivity |]. split; [reflexivity |].
  apply (mat4_ortho_faces (- r) r (- r) r (1 / 100) 100); unfold r; lra.
Qed.

(** C3 (the code departs from the claim).  Whatever the rotation of the
    light node and the scene scale, [DirectionalLight.getCamera] leaves
    the direction at the zero vector [vec3.create()], so the eye and the
    center of the camera are both the origin and its forward vector is
    zero: the eye is not moved back along the light direction. *)
Theorem C3_directional_camera_at_origin (l : Light) (s : vec3) :
  let cam := DirectionalLight_getCamera l s in
  eye cam = V3 0 0 0 /\ center cam = V3 0 0 0 /\ forward cam = V3 0 0 0.
Proof.
  intros cam. unfold cam, DirectionalLight_getCamera, new_OrthoCamera,
    new_BaseCamera; simpl eye; simpl center; simpl forward.
  rewrite vec3_add_create.
  repeat split.
  replace (vec3_sub vec3_create (V3 0 0 0)) with (V3 0 0 0)
    by (unfold vec3_sub, vec3_create; simpl; f_equal; lra).
  apply vec3_normalize_zero.
Qed.

(** C4 (the code departs from the claim).  Whatever the translation of the
    light node and the scene scale, [PointLight.getCamera] puts the eye
    at the origin [vec3.create()], not at the light's position; the
    direction to the center is then the zero vector, and the estimated
    field of view is always 180 degrees. *)
Theorem C4_point_camera_at_origin (l : Light) (s : vec3) :
  let cam := PointLight_getCamera l s in
  eye cam = V3 0 0 0
  /\ cam_class cam = PerspectiveClass 180 1 (1 / 100) 100.
Proof.
  intros cam. split; [reflexivity |].
  unfold cam, PointLight_getCamera, new_PerspectiveCamera, new_BaseCamera;
    simpl cam_class.
  rewrite vec3_sub_create, vec3_normalize_zero, vec3_dot_zero_r, acos_0.
  rewrite rad2deg_right_angle.
  unfold Rmin. destruct (Rle_dec 180 180); reflexivity.
Qed.

(** The field of view stored in the camera lies between 0 and 180. *)
Lemma PointLight_getCamera_fovy (l : Light) (s : vec3) :
  exists fovy,
    cam_class (PointLight_getCamera l s)
      = PerspectiveClass fovy 1 default_near default_far
    /\ 0 <= fovy <= 180.
Proof.
  eexists; split; [reflexivity |]. apply fovy_estimate_range.
Qed.

End LightCameraProperties.

(** ** Running the passes *)

Lemma mat4_multiply_is_product (a b : mat4) (row col : nat) :
  (row < 4)%nat -> (col < 4)%nat ->
  mat4_entry (mat4_multiply a b) row col = matrix_product_entry a b row col.
Proof.
  intros Hr Hc.
  destruct row as [| [| [| [| row]]]]; try lia;
    destruct col as [| [| [| [| col]]]]; try lia;
    unfold matrix_product_entry, mat4_entry, mat4_multiply; simpl; ring.
Qed.

Lemma uniforms_of_write (s : ShaderRef) name v (e : Env) :
  uniforms_of (write_uniform s name v e) s = <[name := v]> (uniforms_of e s).
Proof.
  unfold uniforms_of at 1, write_uniform; simpl.
  rewrite lookup_insert_eq. reflexivity.
Qed.

Lemma uniforms_of_use (s s' : ShaderRef) (e : Env) :
  uniforms_of (use_program s e) s' = uniforms_of e s'.
Proof. reflexivity. Qed.

Lemma uniforms_of_unuse (s' : ShaderRef) (e : Env) :
  uniforms_of (unuse_program e) s' = uniforms_of e s'.
Proof. reflexivity. Qed.

Lemma uniforms_of_active_texture (n : nat) (s' : ShaderRef) (e : Env) :
  uniforms_of (set_active_texture n e) s' = uniforms_of e s'.
Proof. reflexivity. Qed.

Lemma uniforms_of_bind_texture t (s' : ShaderRef) (e : Env) :
  uniforms_of (bind_texture_2d t e) s' = uniforms_of e s'.
Proof. reflexivity. Qed.

Create Rewrite HintDb uniforms.
#[local] Hint Rewrite uniforms_of_write uniforms_of_use uniforms_of_unuse
  uniforms_of_active_texture uniforms_of_bind_texture : uniforms.

Section PassProperties.
Context `{GlMatrixLib} `{Collaborators}.

Lemma bind_run {A B} (m : M A) (k : A -> M B) (st : State) :
  (m ≫= k) st =
  match m st with
  | (Ok a, st') => k a st'
  | (Throw e, st') => (Throw e, st')
  end.
Proof. reflexivity. Qed.

Lemma bind_Ok_inv {A B} (m : M A) (k : A -> M B) st b st' :
  (m ≫= k) st = (Ok b, st') ->
  exists a st1, m st = (Ok a, st1) /\ k a st1 = (Ok b, st').
Proof.
  rewrite bind_run. destruct (m st) as [[a | e] st1]; intros Hk.
  - exists a, st1; split; [reflexivity | exact Hk].
  - discriminate Hk.
Qed.

Lemma deref_Ok_inv {A} what (o : option A) st a st' :
  deref what o st = (Ok a, st') -> o = Some a /\ st' = st.
Proof.
  destruct o as [x |]; simpl; intros Hd; [| discriminate Hd].
  injection Hd as -> ->. split; reflexivity.
Qed.

Lemma call_ext_Ok_inv c st u st' :
  call_ext c st = (Ok u, st') ->
  exists e', ext_call c (env st) = (None, e')
             /\ st' = mkState (app st) e' (trace st ++ [EvExt c]).
Proof.
  unfold call_ext. destruct (ext_call c (env st)) as [[x |] e'];
    intros Hc; [discriminate Hc |].
  injection Hc as _ <-. exists e'; split; reflexivity.
Qed.

Lemma prim_Ok_inv ev f st u st' :
  prim ev f st = (Ok u, st') ->
  st' = mkState (app st) (f (env st)) (trace st ++ [ev]).
Proof. unfold prim. intros Hp. injection Hp as _ <-. reflexivity. Qed.

Ltac step_prim Hs :=
  first
    [ apply prim_Ok_inv in Hs
    | unfold Shader_use, Shader_unuse, setUniform3f, setUniform4x4f,
        setUniform1i, setUniform1f, Shader_setUniform, gl_viewport,
        gl_clearColor, gl_clear, gl_activeTexture, gl_bindTexture2D,
        Fbo_resize, Fbo_bindFramebuffer, Fbo_unbindFramebuffer,
        setViewport in Hs;
      apply prim_Ok_inv in Hs ].

(** One step of a run that is known to succeed. *)
Ltac step H :=
  let a := fresh "a" in
  let st := fresh "st" in
  let Hs := fresh "Hs" in
  apply bind_Ok_inv in H as (a & st & Hs & H);
  first
    [ apply deref_Ok_inv in Hs as [Hs ->]
    | apply call_ext_Ok_inv in Hs as (? & ? & ->)
    | step_prim Hs; subst st
    | (unfold get_app, get_env, set_app in Hs; injection Hs as <- <-) ];
  cbn [app env trace] in H.

Ltac tidy_trace := rewrite <- ?app_assoc; simpl.

(** What a successful [renderpass_normal] has done. *)
Lemma renderpass_normal_Ok_inv w h ex st u st' :
  renderpass_normal w h ex st = (Ok u, st') ->
  exists sc e1 e2,
    scene (app st) = Some sc
    /\ ext_call (SceneSetShader (shaders (app st) !! active_shader (app st)))
         (env st) = (None, e1)
    /\ ext_call (SceneRender ex) (set_viewport 0 0 w h e1) = (None, e2)
    /\ st' = mkState (app st) e2
               (trace st ++
                [EvExt (SceneSetShader
                          (shaders (app st) !! active_shader (app st)));
                 EvViewport 0 0 w h; EvClearColor "#28282B" 1; EvClear;
                 EvExt (SceneRender ex)]).
Proof.
  unfold renderpass_normal, clearCanvas. intros Hrun.
  do 4 step Hrun.
  apply bind_Ok_inv in Hrun as (u1 & st1 & Hclear & Hrun).
  do 1 step Hclear. step_prim Hclear. subst st1.
  apply call_ext_Ok_inv in Hrun as (e2 & He2 & ->).
  simpl in *. tidy_trace.
  eexists _, _, e2. repeat split; eassumption.
Qed.

(** What a successful [do_depth_pass] has done. *)
Lemma do_depth_pass_Ok_inv f l st m st' :
  do_depth_pass f l st = (Ok m, st') ->
  exists sc cam sh e_draw e_after,
    scene (app st) = Some sc
    /\ Light_getCamera l (mat4_getScaling (scenegraph_transformation sc))
       = Some cam
    /\ shaders (app st) !! active_shader (app st) = Some sh
    /\ m = mat4_multiply (getProjectionMatrix cam) (getViewMatrix cam)
    /\ ext_call (SceneRender (Some ["light"])) e_draw = (None, e_after)
    /\ app st' = app st
    /\ env st' =
       unuse_program
         (write_uniform sh "u_p"
            (U4x4f (getProjectionMatrix (camera (app st))))
            (write_uniform sh "u_v"
               (U4x4f (getViewMatrix (camera (app st))))
               (write_uniform sh "u_eye" (U3f (getEye (camera (app st))))
                  (use_program sh (bind_fbo None e_after)))))
    /\ exists evs, trace st' = trace st ++ evs.
Proof.
  unfold do_depth_pass. intros Hrun.
  do 13 step Hrun.
  apply bind_Ok_inv in Hrun as (u1 & st1 & Hnormal & Hrun).
  apply renderpass_normal_Ok_inv in Hnormal
    as (sc' & e1 & e2 & _ & He1 & He2 & ->).
  do 7 step Hrun.
  unfold mret, M_ret in Hrun. injection Hrun as <- <-.
  simpl in *.
  eexists _, _, _, _, e2. repeat split; try eassumption; try reflexivity.
  tidy_trace. eexists; reflexivity.
Qed.

Lemma call_ext_total c st :
  never_raises ->
  call_ext c st
  = (Ok tt, mkState (app st) (snd (ext_call c (env st)))
              (trace st ++ [EvExt c])).
Proof.
  intros Hnr. unfold call_ext. specialize (Hnr c (env st)).
  destruct (ext_call c (env st)) as [r e']; simpl in *. subst r.
  reflexivity.
Qed.

(** Forward equations, for runs in which nothing raises. *)
Lemma ret_bind_run {A B} (a : A) (k : A -> M B) st :
  (mret a ≫= k) st = k a st.
Proof. reflexivity. Qed.

Lemma get_app_bind_run {B} (k : App -> M B) st :
  (get_app ≫= k) st = k (app st) st.
Proof. reflexivity. Qed.

Lemma get_env_bind_run {B} (k : Env -> M B) st :
  (get_env ≫= k) st = k (env st) st.
Proof. reflexivity. Qed.

Lemma set_app_bind_run {B} a (k : unit -> M B) st :
  (set_app a ≫= k) st = k tt (mkState a (env st) (trace st)).
Proof. reflexivity. Qed.

Lemma prim_bind_run {B} ev f (k : unit -> M B) st :
  (prim ev f ≫= k) st
  = k tt (mkState (app st) (f (env st)) (trace st ++ [ev])).
Proof. reflexivity. Qed.

Lemma call_ext_bind_run {B} c (k : unit -> M B) st :
  never_raises ->
  (call_ext c ≫= k) st
  = k tt (mkState (app st) (snd (ext_call c (env st)))
            (trace st ++ [EvExt c])).
Proof. intros Hnr. rewrite bind_run, call_ext_total by exact Hnr. reflexivity. Qed.

Lemma deref_bind_run {A B} what (o : option A) a (k : A -> M B) st :
  o = Some a -> (deref what o ≫= k) st = k a st.
Proof. intros ->. reflexivity. Qed.

Lemma bind_assoc_run {A B C} (m : M A) (k1 : A -> M B) (k2 : B -> M C) st :
  ((m ≫= k1) ≫= k2) st = (m ≫= (fun a => k1 a ≫= k2)) st.
Proof.
  rewrite !bind_run. destruct (m st) as [[a | e] st1]; reflexivity.
Qed.

Ltac unfold_prims :=
  unfold setViewport, clearCanvas, setUniform3f, setUniform4x4f,
    setUniform1i, setUniform1f;
  unfold Shader_use, Shader_unuse, Shader_setUniform, gl_viewport,
    gl_clearColor, gl_clear, gl_activeTexture, gl_bindTexture2D,
    Fbo_resize, Fbo_bindFramebuffer, Fbo_unbindFramebuffer.

Ltac run_forward Hnr :=
  unfold_prims;
  repeat
    (first
       [ rewrite bind_assoc_run
       | rewrite ret_bind_run
       | rewrite get_app_bind_run
       | rewrite get_env_bind_run
       | rewrite set_app_bind_run
       | rewrite prim_bind_run
       | rewrite (call_ext_bind_run _ _ _ Hnr)
       | (erewrite deref_bind_run by eassumption) ];
     cbn [app env trace]).

Lemma renderpass_normal_total w h ex st sc :
  never_raises -> scene (app st) = Some sc ->
  exists st', renderpass_normal w h ex st = (Ok tt, st').
Proof.
  intros Hnr Hsc. unfold renderpass_normal.
  run_forward Hnr.
  rewrite call_ext_total by exact Hnr. eexists; reflexivity.
Qed.

Lemma do_depth_pass_total f l st sc cam sh :
  never_raises ->
  scene (app st) = Some sc ->
  Light_getCamera l (mat4_getScaling (scenegraph_transformation sc))
    = Some cam ->
  shaders (app st) !! active_shader (app st) = Some sh ->
  exists st',
    do_depth_pass f l st
    = (Ok (mat4_multiply (getProjectionMatrix cam) (getViewMatrix cam)),
       st').
Proof.
  intros Hnr Hsc Hcam Hsh. unfold do_depth_pass.
  run_forward Hnr.
  match goal with
  | |- context [(renderpass_normal ?w ?h ?ex ≫= ?k) ?s] =>
      destruct (renderpass_normal_total w h ex s sc Hnr Hsc)
        as [st1 Hnormal];
      rewrite (bind_run (renderpass_normal w h ex) k s), Hnormal
  end.
  apply renderpass_normal_Ok_inv in Hnormal
    as (sc' & e1 & e2 & _ & _ & _ & ->).
  run_forward Hnr.
  eexists; reflexivity.
Qed.

(** C1 (amended).  A depth pass that returns has written the eye, the
    view matrix and the projection matrix of the main camera to [u_eye],
    [u_v] and [u_p] of the active shader.  (When the scene draw raises,
    the exception leaves the pass before the restoring block.) *)
Theorem C1_depth_pass_restores_camera f l st m st' :
  do_depth_pass f l st = (Ok m, st') ->
  exists sh,
    shaders (app st) !! active_shader (app st) = Some sh
    /\ camera (app st') = camera (app st)
    /\ uniforms_of (env st') sh !! "u_eye"
       = Some (U3f (getEye (camera (app st'))))
    /\ uniforms_of (env st') sh !! "u_v"
       = Some (U4x4f (getViewMatrix (camera (app st'))))
    /\ uniforms_of (env st') sh !! "u_p"
       = Some (U4x4f (getProjectionMatrix (camera (app st')))).
Proof.
  intros Hrun.
  apply do_depth_pass_Ok_inv in Hrun
    as (sc & cam & sh & e_draw & e_after & _ & _ & Hsh & _ & _
        & Happ & Henv & _).
  exists sh. rewrite Happ, Henv, uniforms_of_unuse.
  rewrite !uniforms_of_write.
  repeat split; try exact Hsh.
  - rewrite lookup_insert_ne by discriminate.
    rewrite lookup_insert_ne by discriminate.
    apply lookup_insert_eq.
  - rewrite lookup_insert_ne by discriminate.
    apply lookup_insert_eq.
  - apply lookup_insert_eq.
Qed.

(** C6.  For a light whose [getCamera] is not [null], a depth pass that
    returns yields [mat4.multiply(shadow_p, shadow_v)], the product
    projection * view of that camera; and it does return when the scene
    and the active shader exist and no collaborator raises. *)
Theorem C6_depth_pass_returns_projection_view f l st sc cam :
  scene (app st) = Some sc ->
  Light_getCamera l (mat4_getScaling (scenegraph_transformation sc))
    = Some cam ->
  (forall m st',
      do_depth_pass f l st = (Ok m, st') ->
      m = mat4_multiply (projection cam) (view cam))
  /\ (forall sh,
        shaders (app st) !! active_shader (app st) = Some sh ->
        never_raises ->
        exists st',
          do_depth_pass f l st
          = (Ok (mat4_multiply (projection cam) (view cam)), st')).
Proof.
  intros Hsc Hcam. split.
  - intros m st' Hrun.
    apply do_depth_pass_Ok_inv in Hrun
      as (sc' & cam' & sh & e_draw & e_after & Hsc' & Hcam' & _ & Hm & _).
    rewrite Hsc in Hsc'. injection Hsc' as <-.
    rewrite Hcam in Hcam'. injection Hcam' as <-.
    exact Hm.
  - intros sh Hsh Hnr.
    exact (do_depth_pass_total f l st sc cam sh Hnr Hsc Hcam Hsh).
Qed.

(** C10.  With no target shader, [update()] of an ambient, a directional
    or a point light returns normally and leaves the whole state as it
    was: no program is activated, no uniform is written, nothing is
    logged.  The methods never assign a field of the light, which they
    take as a value. *)
Theorem C10_update_without_target_shader (l : Light) (st : State) :
  target_shader l = None ->
  AmbientLight_update l st = (Ok tt, st)
  /\ DirectionalLight_update l st = (Ok tt, st)
  /\ PointLight_update l st = (Ok tt, st).
Proof.
  intros Hts. repeat split.
  - unfold AmbientLight_update; rewrite Hts; reflexivity.
  - unfold DirectionalLight_update; rewrite Hts; reflexivity.
  - unfold PointLight_update; rewrite Hts; reflexivity.
Qed.

(** What a successful [renderpass_pixel_filter] has done, in order. *)
Lemma renderpass_pixel_filter_Ok_inv w h st u st' :
  renderpass_pixel_filter w h st = (Ok u, st') ->
  app st' = app st
  /\ trace st' =
     trace st ++
     [EvFboResize (fbo (app st)) w h;
      EvFboBind (fbo (app st));
      EvExt (SceneSetShader (shaders (app st) !! active_shader (app st)));
      EvViewport 0 0 w h; EvClearColor "#28282B" 1; EvClear;
      EvExt (SceneRender (Some ["light"]));
      EvFboUnbind (fbo (app st));
      EvExt (QuadRender (filter_mode (app st))
               (ColorTextureOf (fbo (app st)))
               (DepthTextureOf (fbo (app st))));
      EvExt (SceneRender (Some ["model"]))].
Proof.
  unfold renderpass_pixel_filter. intros Hrun.
  do 3 step Hrun.
  apply bind_Ok_inv in Hrun as (u1 & st1 & Hnormal & Hrun).
  apply renderpass_normal_Ok_inv in Hnormal
    as (sc' & e1 & e2 & _ & He1 & He2 & ->).
  do 4 step Hrun.
  apply call_ext_Ok_inv in Hrun as (e3 & He3 & ->).
  simpl. tidy_trace. split; reflexivity.
Qed.

(** *** Rules for [emits] *)




















(** With no light tracked, a pass whose collaborators return runs to
    its end and issues the composite calls only. *)
Lemma renderpass_shadowmap_no_light w h st sc sh :
  first_directional_light (app st) = None ->
  first_point_light (app st) = None ->
  scene (app st) = Some sc ->
  shadow_shader (app st) = Some sh ->
  never_raises ->
  exists st',
    renderpass_shadowmap w h st = (Ok tt, st')
    /\ trace st' =
       trace st
       ++ composite_events w h sh (camera (app st))
            mat4_identity mat4_identity
       ++ unbind_events.
Proof.
  intros Hd Hp Hsc Hsh Hnr. unfold renderpass_shadowmap.
  rewrite get_app_bind_run, Hd, ret_bind_run.
  rewrite get_app_bind_run, Hp, ret_bind_run.
  run_forward Hnr.
  unfold set_fbo; cbn [first_directional_light first_point_light fbo].
  rewrite Hd, Hp. cbn [when_some].
  run_forward Hnr.
  eexists; split; [reflexivity |].
  cbn [trace]. rewrite <- ?app_assoc, Hsh. reflexivity.
Qed.


Lemma Light_render_Ok_inv l st u st' :
  Light_render l st = (Ok u, st') ->
  app st' = app st /\ exists evs, trace st' = trace st ++ evs.
Proof.
  unfold Light_render. intros Hrun.
  do 4 step Hrun.
  apply call_ext_Ok_inv in Hrun as (e' & _ & ->).
  split; [reflexivity |]. cbn [trace]. tidy_trace.
  eexists; reflexivity.
Qed.

Lemma gizmo_Ok_inv (o : option Light) st u st' :
  when_some o Light_render st = (Ok u, st') ->
  app st' = app st /\ exists evs, trace st' = trace st ++ evs.
Proof.
  destruct o as [l |]; simpl.
  - apply Light_render_Ok_inv.
  - intros Hrun. injection Hrun as _ <-.
    split; [reflexivity |]. exists []. rewrite app_nil_r; reflexivity.
Qed.

Lemma depth_slot_Ok_inv (o : option Light) f st m st' :
  match o with
  | Some l => do_depth_pass f l
  | None => mret mat4_identity
  end st = (Ok m, st') ->
  app st' = app st /\ exists evs, trace st' = trace st ++ evs.
Proof.
  destruct o as [l |].
  - intros Hrun. apply do_depth_pass_Ok_inv in Hrun
      as (sc & cam & sh & e1 & e2 & _ & _ & _ & _ & _ & Happ & _ & Hevs).
    split; assumption.
  - intros Hrun. injection Hrun as _ <-.
    split; [reflexivity |]. exists []. rewrite app_nil_r; reflexivity.
Qed.

(** What a successful [renderpass_shadowmap] has done. *)
Lemma renderpass_shadowmap_Ok_inv w h st u st' :
  renderpass_shadowmap w h st = (Ok u, st') ->
  exists sh pv_point pv_directional depth_events gizmo_events
         e_draw e_after e_gizmos,
    shadow_shader (app st) = Some sh
    /\ trace st' =
       trace st ++ depth_events
       ++ composite_events w h sh (camera (app st))
            pv_point pv_directional
       ++ gizmo_events ++ unbind_events
    /\ ext_call (SceneRender (Some ["light"])) e_draw = (None, e_after)
    /\ texture_2d e_draw !! 3%nat = Some (DepthTextureOf FboDirectional)
    /\ texture_2d e_draw !! 4%nat = Some (DepthTextureOf FboPoint)
    /\ uniforms_of e_draw sh !! "u_shadow_tex_directional" = Some (U1i 3)
    /\ uniforms_of e_draw sh !! "u_shadow_tex_point" = Some (U1i 4)
    /\ env st' =
       bind_texture_2d None
         (set_active_texture 4
            (bind_texture_2d None (set_active_texture 3 e_gizmos)))
    /\ fbo (app st') = FboDirectional
    /\ scene (app st') = scene (app st).
Proof.
  unfold renderpass_shadowmap. intros Hrun.
  step Hrun.
  apply bind_Ok_inv in Hrun as (pv_d & st1 & Hdir & Hrun).
  apply depth_slot_Ok_inv in Hdir as (Happ1 & evs1 & Ht1).
  step Hrun.
  apply bind_Ok_inv in Hrun as (pv_p & st2 & Hpt & Hrun).
  apply depth_slot_Ok_inv in Hpt as (Happ2 & evs2 & Ht2).
  step Hrun.
  apply bind_Ok_inv in Hrun as (u1 & st3 & Hclear & Hrun).
  unfold clearCanvas in Hclear.
  step Hclear. step_prim Hclear. cbn [app env trace] in Hclear. subst st3.
  repeat step Hrun.
  apply bind_Ok_inv in Hrun as (u2 & st4 & Hg1 & Hrun).
  apply gizmo_Ok_inv in Hg1 as (Happ4 & evs4 & Ht4).
  apply bind_Ok_inv in Hrun as (u3 & st5 & Hg2 & Hrun).
  apply gizmo_Ok_inv in Hg2 as (Happ5 & evs5 & Ht5).
  repeat step Hrun. step_prim Hrun. subst st'.
  cbn [app env trace] in *.
  rewrite Happ2, Happ1 in *.
  match goal with
  | Hsh : shadow_shader (app st) = Some ?s,
    Hdraw : ext_call (SceneRender _) ?e = (None, ?e') |- _ =>
      exists s, pv_p, pv_d, (evs1 ++ evs2), (evs4 ++ evs5), e, e', (env st5)
  end.
  repeat split; try eassumption; try reflexivity.
  - rewrite Ht5, Ht4. cbn [trace]. rewrite Ht2, Ht1.
    rewrite <- ?app_assoc. cbn [app]. unfold composite_events, unbind_events.
    match goal with
    | Hsh : shadow_shader (app st) = Some _ |- _ => rewrite Hsh
    end.
    reflexivity.
  - cbn. apply lookup_insert_eq.
  - cbn. rewrite lookup_insert_ne by discriminate. apply lookup_insert_eq.
  - autorewrite with uniforms. apply lookup_insert_eq.
  - autorewrite with uniforms.
    rewrite lookup_insert_ne by discriminate. apply lookup_insert_eq.
  - rewrite Happ5, Happ4. reflexivity.
  - rewrite Happ5, Happ4. reflexivity.
Qed.





Lemma renderpass_pixel_filter_total w h st sc :
  never_raises -> scene (app st) = Some sc ->
  exists st', renderpass_pixel_filter w h st = (Ok tt, st').
Proof.
  intros Hnr Hsc. unfold renderpass_pixel_filter.
  run_forward Hnr.
  match goal with
  | |- context [(renderpass_normal ?w ?h ?ex ≫= ?k) ?s] =>
      destruct (renderpass_normal_total w h ex s sc Hnr Hsc)
        as [st1 Hnormal];
      rewrite (bind_run (renderpass_normal w h ex) k s), Hnormal
  end.
  apply renderpass_normal_Ok_inv in Hnormal
    as (sc' & e1 & e2 & _ & _ & _ & ->).
  run_forward Hnr.
  rewrite call_ext_total by exact Hnr. eexists; reflexivity.
Qed.

(** C8 (the code departs from the claim).  [renderpass_pixel_filter]
    works on [this.fbo], and [renderpass_shadowmap] leaves [this.fbo]
    pointing at [fbo_directional].  A pixel-filter pass that follows a
    shadow pass therefore resizes, binds and samples the directional
    shadow framebuffer, not the pixel-filter one; the order of its calls
    is the expected one. *)
Theorem C8_pixel_filter_after_shadowmap w h w' h' st st1 st2 :
  renderpass_shadowmap w h st = (Ok tt, st1) ->
  renderpass_pixel_filter w' h' st1 = (Ok tt, st2) ->
  fbo (app st1) = FboDirectional
  /\ trace st2 =
     trace st1 ++
     [EvFboResize FboDirectional w' h';
      EvFboBind FboDirectional;
      EvExt (SceneSetShader
               (shaders (app st1) !! active_shader (app st1)));
      EvViewport 0 0 w' h'; EvClearColor "#28282B" 1; EvClear;
      EvExt (SceneRender (Some ["light"]));
      EvFboUnbind FboDirectional;
      EvExt (QuadRender (filter_mode (app st1))
               (ColorTextureOf FboDirectional)
               (DepthTextureOf FboDirectional));
      EvExt (SceneRender (Some ["model"]))].
Proof.
  intros Hshadow Hfilter.
  apply renderpass_shadowmap_Ok_inv in Hshadow
    as (sh & pv_p & pv_d & devs & gevs & e_draw & e_after & e_giz
        & _ & _ & _ & _ & _ & _ & _ & _ & Hfbo & _).
  apply renderpass_pixel_filter_Ok_inv in Hfilter as [_ Ht].
  rewrite Hfbo in Ht. split; [exact Hfbo | exact Ht].
Qed.

(** *** Opening a scene *)

Lemma track_light_ambient (a : App) (n : SceneNode) :
  (forall l, node_light n = Some l -> light_class l = AmbientLightClass) ->
  track_light a n = a.
Proof.
  intros Hamb. unfold track_light.
  assert (Hd : is_instance DirectionalLightClass (node_light n) = false).
  { destruct (node_light n) as [l |]; [| reflexivity].
    simpl. rewrite (Hamb l eq_refl). reflexivity. }
  assert (Hp : is_instance PointLightClass (node_light n) = false).
  { destruct (node_light n) as [l |]; [| reflexivity].
    simpl. rewrite (Hamb l eq_refl). reflexivity. }
  rewrite Hd, Hp, !andb_false_r. reflexivity.
Qed.

Lemma track_lights_ambient (nodes : list SceneNode) (a : App) :
  (forall n l, In n nodes -> node_light n = Some l ->
               light_class l = AmbientLightClass) ->
  fold_left track_light nodes a = a.
Proof.
  revert a. induction nodes as [| n nodes IH]; intros a Hamb.
  - reflexivity.
  - simpl. rewrite track_light_ambient.
    + apply IH. intros n' l Hin. apply Hamb. right; exact Hin.
    + intros l. apply Hamb. left; reflexivity.
Qed.

(** Opening a scene whose lights are all ambient tracks no light. *)
Lemma openScene_ambient_only sc st sc' st' :
  (forall n l, In n (scene_nodes sc) -> node_light n = Some l ->
               light_class l = AmbientLightClass) ->
  openScene sc st = (Ok sc', st') ->
  first_directional_light (app st') = None
  /\ first_point_light (app st') = None
  /\ scene (app st') = Some sc
  /\ shadow_shader (app st') = shadow_shader (app st)
  /\ camera (app st') = camera (app st).
Proof.
  intros Hamb. unfold openScene. intros Hrun.
  repeat step Hrun.
  injection Hrun as _ <-. cbn [app].
  rewrite track_lights_ambient by exact Hamb.
  repeat split.
Qed.

(** The scenario of a scene with ambient lights only, in shadow mode. *)
Corollary ambient_only_scene_shadowmap w h sc st sc' st1 sh :
  (forall n l, In n (scene_nodes sc) -> node_light n = Some l ->
               light_class l = AmbientLightClass) ->
  openScene sc st = (Ok sc', st1) ->
  shadow_shader (app st) = Some sh ->
  never_raises ->
  exists st2,
    renderpass_shadowmap w h st1 = (Ok tt, st2)
    /\ trace st2 =
       trace st1
       ++ composite_events w h sh (camera (app st))
            mat4_identity mat4_identity
       ++ unbind_events.
Proof.
  intros Hamb Hopen Hsh Hnr.
  destruct (openScene_ambient_only _ _ _ _ Hamb Hopen)
    as (Hd & Hp & Hsc & Hss & Hcam).
  rewrite <- Hcam.
  apply (renderpass_shadowmap_no_light w h st1 sc sh Hd Hp Hsc);
    [rewrite Hss; exact Hsh | exact Hnr].
Qed.

End PassProperties.

(** * The properties on concrete inputs *)

Lemma vec3_length_unit_x : vec3_length (V3 1 0 0) = 1.
Proof.
  unfold vec3_length; simpl.
  replace (1 * 1 + 0 * 0 + 0 * 0) with 1 by ring. apply sqrt_1.
Qed.

Lemma quiet_never_raises : @never_raises quiet_collaborators.
Proof. intros c e. reflexivity. Qed.

(** C1, witness: a depth pass for a directional light that returns. *)
Lemma C1_witness :
  exists m st' sh,
    @do_depth_pass sample_glmatrix quiet_collaborators
      FboDirectional directional_light0 initial_state = (Ok m, st')
    /\ shaders (app initial_state) !! active_shader (app initial_state)
       = Some sh
    /\ uniforms_of (env st') sh !! "u_eye"
       = Some (U3f (getEye (camera (app st'))))
    /\ uniforms_of (env st') sh !! "u_v"
       = Some (U4x4f (getViewMatrix (camera (app st'))))
    /\ uniforms_of (env st') sh !! "u_p"
       = Some (U4x4f (getProjectionMatrix (camera (app st')))).
Proof.
  destruct (@do_depth_pass_total sample_glmatrix quiet_collaborators
              FboDirectional directional_light0 initial_state
              ambient_scene _ 2%nat quiet_never_raises
              eq_refl eq_refl eq_refl) as [st' Hrun].
  destruct (@C1_depth_pass_restores_camera sample_glmatrix
              quiet_collaborators FboDirectional directional_light0
              initial_state _ st' Hrun)
    as (sh & Hsh & _ & Heye & Hv & Hp).
  eexists _, st', sh. repeat split; eassumption.
Defined.

(** C1, counterexample: the scene draw of a depth pass raises.  The draw
    was issued, the exception leaves the pass, and [u_eye] of the active
    shader keeps the eye of the shadow camera instead of the main camera's. *)
Lemma C1_counterexample :
  fst failing_depth_run = Throw (ExternalError "scene.render")
  /\ In (EvExt (SceneRender (Some ["light"]))) (trace (snd failing_depth_run))
  /\ shaders (app initial_state) !! active_shader (app initial_state)
     = Some 2%nat
  /\ uniforms_of (env (snd failing_depth_run)) 2%nat !! "u_eye"
     = Some (U3f (V3 0 0 0))
  /\ uniforms_of (env (snd failing_depth_run)) 2%nat !! "u_eye"
     <> Some (U3f (getEye (camera (app (snd failing_depth_run))))).
Proof.
  split; [reflexivity |]. split; [simpl; tauto |]. split; [reflexivity |].
  assert (Hu : uniforms_of (env (snd failing_depth_run)) 2%nat !! "u_eye"
               = Some (U3f (V3 0 0 0))) by reflexivity.
  split; [exact Hu |].
  rewrite Hu. intros Heq.
  assert (Hx : vx (V3 0 0 0)
               = vx (getEye (camera (app (snd failing_depth_run)))))
    by congruence.
  simpl in Hx. lra.
Qed.

(** C2, witness: the scene scale (1, 0, 0) has length 1. *)
Lemma C2_witness :
  0 < vec3_length (V3 1 0 0)
  /\ projection (@DirectionalLight_getCamera sample_glmatrix
                   directional_light0 (V3 1 0 0))
     = mat4_ortho (- vec3_length (V3 1 0 0)) (vec3_length (V3 1 0 0))
                  (- vec3_length (V3 1 0 0)) (vec3_length (V3 1 0 0))
                  (1 / 100) 100.
Proof.
  assert (Hpos : 0 < vec3_length (V3 1 0 0))
    by (rewrite vec3_length_unit_x; lra).
  split; [exact Hpos |].
  exact (proj1 (proj2 (@C2_directional_camera_bounds sample_glmatrix
                         directional_light0 (V3 1 0 0) Hpos))).
Defined.

(** C2, counterexample: for the scene scale (1, 0, 0), of length 1, the
    projection is not the orthographic one with near and far at -1 and 1. *)
Lemma C2_counterexample :
  0 < vec3_length (V3 1 0 0)
  /\ projection (@DirectionalLight_getCamera sample_glmatrix
                   directional_light0 (V3 1 0 0))
     <> mat4_ortho (- vec3_length (V3 1 0 0)) (vec3_length (V3 1 0 0))
                   (- vec3_length (V3 1 0 0)) (vec3_length (V3 1 0 0))
                   (- vec3_length (V3 1 0 0)) (vec3_length (V3 1 0 0)).
Proof.
  split; [rewrite vec3_length_unit_x; lra |].
  intros Heq. apply (f_equal e10) in Heq.
  unfold DirectionalLight_getCamera, new_OrthoCamera, new_BaseCamera,
    mat4_ortho, default_near, default_far in Heq.
  simpl in Heq. rewrite vec3_length_unit_x in Heq.
  assert (Hl : 2 * (1 / (1 / 100 - 100)) = - (200 / 9999)) by (field; lra).
  assert (Hr : 2 * (1 / (- (1) - 1)) = -1) by (field; lra).
  rewrite Hl, Hr in Heq. lra.
Qed.


(** C6, witness: the depth pass of a directional light returns the product
    of the projection and the view matrix of its camera. *)
Lemma C6_witness :
  let cam := @DirectionalLight_getCamera sample_glmatrix directional_light0
               (mat4_getScaling mat4_identity) in
  exists st',
    @do_depth_pass sample_glmatrix quiet_collaborators
      FboDirectional directional_light0 initial_state
    = (Ok (mat4_multiply (projection cam) (view cam)), st').
Proof.
  intros cam.
  destruct (@C6_depth_pass_returns_projection_view sample_glmatrix
              quiet_collaborators FboDirectional directional_light0
              initial_state ambient_scene cam eq_refl eq_refl)
    as [_ Htotal].
  exact (Htotal 2%nat eq_refl quiet_never_raises).
Defined.



(** C8, witness: the application is constructed with [this.fbo] pointing
    at the pixel-filter framebuffer; after a shadow pass, a pixel-filter
    pass on a 1024x768 canvas resizes the directional shadow framebuffer
    and leaves the pixel-filter framebuffer alone. *)
Lemma C8_witness :
  fbo (app initial_state) = FboPixelFilter
  /\ exists st1 st2,
      @renderpass_shadowmap sample_glmatrix quiet_collaborators
        800 600 initial_state = (Ok tt, st1)
      /\ @renderpass_pixel_filter quiet_collaborators 1024 768 st1
         = (Ok tt, st2)
      /\ fbo (app st1) = FboDirectional
      /\ In (EvFboResize FboDirectional 1024 768) (trace st2)
      /\ ~ In (EvFboResize FboPixelFilter 1024 768) (trace st2).
Proof.
  split; [reflexivity |].
  destruct (@renderpass_shadowmap_no_light sample_glmatrix
              quiet_collaborators 800 600 initial_state ambient_scene 4%nat
              eq_refl eq_refl eq_refl eq_refl quiet_never_raises)
    as (st1 & Hshadow & Ht1).
  assert (Hsc : scene (app st1) = Some ambient_scene).
  { apply (@renderpass_shadowmap_Ok_inv sample_glmatrix quiet_collaborators)
      in Hshadow as Hinv.
    destruct Hinv as (sh & pv_p & pv_d & devs & gevs & e1 & e2 & e3
                      & _ & _ & _ & _ & _ & _ & _ & _ & _ & Happ).
    rewrite Happ. reflexivity. }
  destruct (@renderpass_pixel_filter_total quiet_collaborators
              1024 768 st1 ambient_scene quiet_never_raises Hsc)
    as [st2 Hfilter].
  destruct (@C8_pixel_filter_after_shadowmap sample_glmatrix
              quiet_collaborators 800 600 1024 768 initial_state st1 st2
              Hshadow Hfilter) as [Hfbo Ht].
  exists st1, st2. repeat split; try assumption.
  - rewrite Ht. apply in_or_app. right. left. reflexivity.
  - rewrite Ht, Ht1. intros Hin.
    apply in_app_or in Hin as [Hin | Hin];
      [apply in_app_or in Hin as [Hin | Hin] |];
      simpl in Hin; intuition discriminate.
Defined.

(** C9, witness: the main camera, at (2, 0.5, -2) and looking at the
    origin. *)
Lemma C9_witness :
  off_vertical (eye main_camera) (center main_camera)
  /\ camera_frame_orthonormal (BaseCamera_updateViewSpaceVectors main_camera).
Proof.
  assert (Hoff : off_vertical (eye main_camera) (center main_camera)).
  { left. change (vx default_eye <> vx default_center).
    unfold default_eye, default_center; simpl. lra. }
  split; [exact Hoff |].
  exact (proj1 (@C9_view_space_vectors sample_glmatrix main_camera Hoff)).
Defined.

(** C9, counterexample: a camera at (0, 1, 0) looking at the origin, so
    that the eye-to-center direction is the world up axis.  The cross
    product with the up axis vanishes and [right] is the zero vector, not a
    unit vector. *)
Lemma C9_counterexample :
  right (BaseCamera_updateViewSpaceVectors overhead_camera) = V3 0 0 0
  /\ ~ camera_frame_orthonormal
        (BaseCamera_updateViewSpaceVectors overhead_camera).
Proof.
  assert (Hright : right (BaseCamera_updateViewSpaceVectors overhead_camera)
                   = V3 0 0 0).
  { apply updateViewSpaceVectors_vertical; simpl; lra. }
  split; [exact Hright |].
  intros (_ & Hunit & _). rewrite Hright in Hunit.
  unfold vec3_length in Hunit; simpl in Hunit.
  replace (0 * 0 + 0 * 0 + 0 * 0) with 0 in Hunit by ring.
  rewrite sqrt_0 in Hunit. lra.
Qed.

(** C10, witness: an ambient, a directional and a point light without
    target shader. *)
Lemma C10_witness :
  AmbientLight_update ambient_light0 initial_state = (Ok tt, initial_state)
  /\ @DirectionalLight_update sample_glmatrix directional_light0
       initial_state = (Ok tt, initial_state)
  /\ PointLight_update point_light0 initial_state = (Ok tt, initial_state).
Proof.
  split; [| split].
  - exact (proj1 (@C10_update_without_target_shader sample_glmatrix
                    ambient_light0 initial_state eq_refl)).
  - exact (proj1 (proj2 (@C10_update_without_target_shader sample_glmatrix
                           directional_light0 initial_state eq_refl))).
  - exact (proj2 (proj2 (@C10_update_without_target_shader sample_glmatrix
                           point_light0 initial_state eq_refl))).
Defined.

(** The directional light of the sample scene: the eye of its shadow
    camera is the origin, whatever the scene scale; one unit of scale would
    put it at distance [sqrt 3] along the light direction. *)
Example directional_camera_example :
  eye (@DirectionalLight_getCamera sample_glmatrix directional_light0
         (V3 1 1 1)) = V3 0 0 0
  /\ center (@DirectionalLight_getCamera sample_glmatrix directional_light0
               (V3 1 1 1)) = V3 0 0 0.
Proof.
  split;
    apply (@C3_directional_camera_at_origin sample_glmatrix
             directional_light0 (V3 1 1 1)).
Qed.

(** The point light at (1, 2, 3): the eye of its shadow camera is the
    origin, not the position of the light. *)
Example point_camera_example :
  Light_getPosition point_light0 = V3 1 2 3
  /\ eye (@PointLight_getCamera sample_glmatrix point_light0 (V3 1 1 1))
     = V3 0 0 0
  /\ eye (@PointLight_getCamera sample_glmatrix point_light0 (V3 1 1 1))
     <> Light_getPosition point_light0.
Proof.
  split; [reflexivity |]. split; [reflexivity |].
  intros Heq. apply (f_equal vx) in Heq. simpl in Heq. lra.
Qed.

(** * Tactics for running the passes *)

Ltac step_prim Hs :=
  first
    [ apply prim_Ok_inv in Hs
    | unfold Shader_use, Shader_unuse, setUniform3f, setUniform4x4f,
        setUniform1i, setUniform1f, Shader_setUniform, gl_viewport,
        gl_clearColor, gl_clear, gl_activeTexture, gl_bindTexture2D,
        Fbo_resize, Fbo_bindFramebuffer, Fbo_unbindFramebuffer,
        setViewport in Hs;
      apply prim_Ok_inv in Hs ].

(** One step of a run that is known to return. *)
Ltac step H :=
  let a := fresh "a" in
  let st := fresh "st" in
  let Hs := fresh "Hs" in
  apply bind_Ok_inv in H as (a & st & Hs & H);
  first
    [ apply deref_Ok_inv in Hs as [Hs ->]
    | apply call_ext_Ok_inv in Hs as (? & ? & ->)
    | step_prim Hs; subst st
    | (unfold get_app, get_env, set_app in Hs; injection Hs as <- <-) ];
  cbn [app env trace] in H.

Ltac unfold_prims :=
  unfold setViewport, clearCanvas, setUniform3f, setUniform4x4f,
    setUniform1i, setUniform1f;
  unfold Shader_use, Shader_unuse, Shader_setUniform, gl_viewport,
    gl_clearColor, gl_clear, gl_activeTexture, gl_bindTexture2D,
    Fbo_resize, Fbo_bindFramebuffer, Fbo_unbindFramebuffer.

(** Forward execution while no collaborator raises. *)
Ltac run_forward Hnr :=
  unfold_prims;
  repeat
    (first
       [ rewrite bind_assoc_run
       | rewrite ret_bind_run
       | rewrite get_app_bind_run
       | rewrite get_env_bind_run
       | rewrite set_app_bind_run
       | rewrite prim_bind_run
       | rewrite (call_ext_bind_run _ _ _ Hnr)
       | (erewrite deref_bind_run by eassumption) ];
     cbn [app env trace]).

(** Forward execution up to the next call into a collaborator. *)
Ltac run_prims :=
  unfold_prims;
  repeat
    (first
       [ rewrite bind_assoc_run
       | rewrite ret_bind_run
       | rewrite get_app_bind_run
       | rewrite get_env_bind_run
       | rewrite set_app_bind_run
       | rewrite prim_bind_run
       | (erewrite deref_bind_run by eassumption) ];
     cbn [app env trace]).

Ltac simpl_env :=
  repeat first
    [ rewrite uniforms_of_unuse | rewrite uniforms_of_write
    | rewrite uniforms_of_use | rewrite uniforms_of_active_texture
    | rewrite uniforms_of_bind_texture ].

(** * Textures *)

Lemma on_bound_Some f n m t fl :
  on_bound f (mkTexGl n m (Some t) fl) = mkTexGl n (alter f t m) (Some t) fl.
Proof. reflexivity. Qed.

(** [createTexture] in one step: the texture, if it exists, is replaced by
    [created_object]; nothing stays bound; the flip flag stays set. *)
Lemma createTexture_summary t w h f1 f2 f3 px flip g :
  BaseTexture_createTexture t w h f1 f2 f3 px flip g
  = mkTexGl (next_handle g)
      (alter (fun _ => created_object w h f1 f2 f3 px flip) t (tex_objects g))
      None flip.
Proof.
  unfold BaseTexture_createTexture, BaseTexture_bind, BaseTexture_unbind,
    gl_texParameteri_mag_filter, gl_texParameteri_min_filter,
    gl_texParameteri_wrap_t, gl_texParameteri_wrap_s, gl_texImage2D,
    gl_pixelStorei_flip_y, tex_bindTexture, on_bound; simpl.
  f_equal. apply map_eq; intros k.
  destruct (decide (t = k)) as [-> | Hne].
  - rewrite !lookup_alter_eq. destruct (tex_objects g !! k); reflexivity.
  - rewrite !lookup_alter_ne by exact Hne. reflexivity.
Qed.





(** X4.  Handles stay fresh: in a context where every existing texture has
    a handle below the next one, a new texture gets a handle no existing
    texture has, creating it changes no existing texture, and the
    constructors, [resize] and [onload] keep the context that way. *)
Theorem texture_handles_fresh g :
  handles_fresh g ->
  (forall f1 f2 f3,
      let '(t, g') := new_RenderTexture f1 f2 f3 g in
      tex_objects g !! rt_texture t = None
      /\ (forall k o, tex_objects g !! k = Some o ->
                      tex_objects g' !! k = Some o)
      /\ handles_fresh g')
  /\ (forall filename flip,
        let '(t, g') := new_ImageTexture filename flip g in
        tex_objects g !! it_texture t = None
        /\ (forall k o, tex_objects g !! k = Some o ->
                        tex_objects g' !! k = Some o)
        /\ handles_fresh g')
  /\ (forall w h t, handles_fresh (snd (RenderTexture_resize w h t g)))
  /\ (forall t w h, handles_fresh (ImageTexture_onload t w h g)).
Proof.
  intros Hg.
  assert (Hnone : tex_objects g !! next_handle g = None).
  { destruct (tex_objects g !! next_handle g) eqn:Hl; [| reflexivity].
    assert (next_handle g < next_handle g)%nat by (apply Hg; eauto). lia. }
  assert (Hkeep : forall k o, tex_objects g !! k = Some o -> k <> next_handle g).
  { intros k o Hk ->. rewrite Hnone in Hk. discriminate Hk. }
  assert (Hnew : forall o0,
             handles_fresh
               (mkTexGl (S (next_handle g))
                        (<[next_handle g := o0]> (tex_objects g))
                        (tex_binding g) (unpack_flip_y g))).
  { intros o0 k Hk; simpl in *.
    apply lookup_insert_is_Some in Hk as [<- | [_ Hk]]; [lia |].
    apply Hg in Hk. lia. }
  repeat split.
  - exact Hnone.
  - intros k o Hk. simpl. rewrite lookup_insert_ne; [exact Hk |].
    intros Heq. apply (Hkeep k o Hk). symmetry; exact Heq.
  - apply Hnew.
  - exact Hnone.
  - intros k o Hk. rewrite createTexture_summary; simpl.
    pose proof (Hkeep k o Hk) as Hne.
    rewrite lookup_alter_ne by congruence.
    rewrite lookup_insert_ne by congruence. exact Hk.
  - rewrite createTexture_summary.
    intros k Hk; simpl in *.
    apply lookup_alter_is_Some in Hk.
    apply lookup_insert_is_Some in Hk as [<- | [_ Hk]]; [lia |].
    apply Hg in Hk. lia.
  - intros w h t k Hk. unfold RenderTexture_resize in Hk.
    rewrite createTexture_summary in Hk; simpl in *.
    apply lookup_alter_is_Some in Hk. apply Hg; exact Hk.
  - unfold ImageTexture_onload, gl_texParameteri_mag_filter,
      gl_texParameteri_min_filter, gl_texParameteri_wrap_t,
      gl_texParameteri_wrap_s, gl_generateMipmap, gl_texImage2D,
      BaseTexture_bind, tex_bindTexture, on_bound; simpl.
    intros t w h k Hk; simpl in *.
    rewrite !lookup_alter_is_Some in Hk. apply Hg; exact Hk.
Qed.

Lemma onload_summary t w h g :
  ImageTexture_onload t w h g
  = mkTexGl (next_handle g)
      (alter (fun _ => loaded_object (it_filename t) w h (unpack_flip_y g))
             (it_texture t) (tex_objects g))
      (Some (it_texture t)) (unpack_flip_y g).
Proof.
  unfold ImageTexture_onload, gl_texParameteri_mag_filter,
    gl_texParameteri_min_filter, gl_texParameteri_wrap_t,
    gl_texParameteri_wrap_s, gl_generateMipmap, gl_texImage2D,
    BaseTexture_bind, tex_bindTexture, on_bound; simpl.
  f_equal. apply map_eq; intros k.
  destruct (decide (it_texture t = k)) as [<- | Hne].
  - rewrite !lookup_alter_eq.
    destruct (tex_objects g !! it_texture t); reflexivity.
  - rewrite !lookup_alter_ne by exact Hne. reflexivity.
Qed.

Lemma new_ImageTexture_summary filename flip g :
  new_ImageTexture filename flip g
  = (mkImageTexture (next_handle g) filename,
     mkTexGl (S (next_handle g))
       (<[next_handle g :=
            created_object 1 1 RGBA RGBA UNSIGNED_BYTE
                           (PixelArray [0; 0; 255; 255]%Z) flip]>
          (tex_objects g))
       None flip).
Proof.
  unfold new_ImageTexture, new_BaseTexture, gl_createTexture.
  rewrite createTexture_summary; simpl. do 2 f_equal.
  rewrite alter_insert_eq. reflexivity.
Qed.

(** X5.  An image texture can be sampled at every stage: from the
    constructor on it holds a 1 x 1 opaque blue pixel with nearest
    filtering and nothing is left bound; once the image has loaded it
    holds the image with its mipmaps, repeats, and is left bound on the
    active unit. *)
Theorem ImageTexture_always_sampleable filename flip w h g :
  let '(t, g1) := new_ImageTexture filename flip g in
  let g2 := ImageTexture_onload t w h g1 in
  (exists o img,
      tex_objects g1 !! it_texture t = Some o /\ sampleable o
      /\ tex_image o = Some img
      /\ img_width img = 1%Z /\ img_height img = 1%Z
      /\ img_source img = PixelArray [0; 0; 255; 255]%Z
      /\ min_filter o = NEAREST
      /\ tex_binding g1 = None)
  /\ (exists o img,
         tex_objects g2 !! it_texture t = Some o /\ sampleable o
         /\ tex_image o = Some img
         /\ img_width img = w /\ img_height img = h
         /\ img_source img = LoadedImage filename
         /\ tex_mipmap o = true
         /\ wrap_s o = REPEAT /\ wrap_t o = REPEAT
         /\ tex_binding g2 = Some (it_texture t)).
Proof.
  rewrite new_ImageTexture_summary. cbv zeta.
  rewrite onload_summary; simpl. split.
  - eexists _, _. rewrite lookup_insert_eq.
    repeat split; try reflexivity.
    + eexists; reflexivity.
    + intros Hf; discriminate Hf.
  - eexists _, _. rewrite lookup_alter_eq, lookup_insert_eq; simpl.
    repeat split; try reflexivity.
    eexists; reflexivity.
Qed.

(** X6.  The [flip_y] argument of an image texture reaches only its
    fallback pixel.  The loaded image is flipped as the context's flag says
    when the load completes: as asked if nothing touched the flag in
    between, and not at all once any render texture was resized in
    between, whatever [flip_y] was. *)
Theorem ImageTexture_onload_flip filename flip w h g :
  let '(t, g1) := new_ImageTexture filename flip g in
  tex_objects (ImageTexture_onload t w h g1) !! it_texture t
  = Some (loaded_object filename w h flip)
  /\ forall rt w' h',
       tex_objects
         (ImageTexture_onload t w h (snd (RenderTexture_resize w' h' rt g1)))
         !! it_texture t
       = Some (loaded_object filename w h false).
Proof.
  rewrite new_ImageTexture_summary. split.
  - rewrite onload_summary; simpl.
    rewrite lookup_alter_eq, lookup_insert_eq. reflexivity.
  - intros rt w' h'. unfold RenderTexture_resize.
    rewrite onload_summary, createTexture_summary; simpl.
    rewrite lookup_alter_eq.
    destruct (decide (rt_texture rt = next_handle g)) as [-> | Hne].
    + rewrite lookup_alter_eq, lookup_insert_eq. reflexivity.
    + rewrite lookup_alter_ne by exact Hne.
      rewrite lookup_insert_eq. reflexivity.
Qed.

(** * Camera controls *)

Lemma vec3_sub_add_same (a b t : vec3) :
  vec3_sub (vec3_add a t) (vec3_add b t) = vec3_sub a b.
Proof. unfold vec3_sub, vec3_add; simpl. f_equal; ring. Qed.

Lemma vec3_dot_zero_components (v : vec3) :
  ~ vec3_dot v v > 0 -> vx v = 0 /\ vy v = 0 /\ vz v = 0.
Proof.
  unfold vec3_dot. intros Hn.
  assert (Hx : 0 <= vx v * vx v) by nra.
  assert (Hy : 0 <= vy v * vy v) by nra.
  assert (Hz : 0 <= vz v * vz v) by nra.
  repeat split; nra.
Qed.

Lemma sqrt_scaled (s n : R) : 0 <= s -> 0 <= n -> sqrt (s * s * n) = s * sqrt n.
Proof.
  intros Hs Hn. rewrite sqrt_mult by nra. rewrite sqrt_square by exact Hs.
  reflexivity.
Qed.

(** Scaling by a positive factor does not change the direction. *)
Lemma vec3_normalize_scale_pos (v : vec3) (s : R) :
  0 < s -> vec3_normalize (vec3_scale v s) = vec3_normalize v.
Proof.
  intros Hs. destruct (Rgt_dec (vec3_dot v v) 0) as [Hpos | Hzero].
  - assert (Hpos' : 0 < vec3_dot (vec3_scale v s) (vec3_scale v s)).
    { rewrite vec3_dot_scale. apply Rmult_lt_0_compat; [nra | lra]. }
    rewrite (vec3_normalize_scale _ Hpos'), (vec3_normalize_scale v) by lra.
    rewrite vec3_dot_scale, sqrt_scaled by lra.
    assert (Hq : 0 < sqrt (vec3_dot v v)) by (apply sqrt_lt_R0; lra).
    unfold vec3_scale; simpl. f_equal; field; lra.
  - destruct (vec3_dot_zero_components v Hzero) as (Hx & Hy & Hz).
    unfold vec3_normalize, vec3_scale; simpl. rewrite Hx, Hy, Hz.
    f_equal; ring.
Qed.

(** Scaling by a negative factor reverses the direction. *)
Lemma vec3_normalize_scale_neg (v : vec3) (s : R) :
  s < 0 -> vec3_normalize (vec3_scale v s) = vec3_scale (vec3_normalize v) (-1).
Proof.
  intros Hs. destruct (Rgt_dec (vec3_dot v v) 0) as [Hpos | Hzero].
  - assert (Hpos' : 0 < vec3_dot (vec3_scale v s) (vec3_scale v s)).
    { rewrite vec3_dot_scale. apply Rmult_lt_0_compat; [nra | lra]. }
    rewrite (vec3_normalize_scale _ Hpos'), (vec3_normalize_scale v) by lra.
    rewrite vec3_dot_scale.
    replace (s * s * vec3_dot v v) with ((- s) * (- s) * vec3_dot v v) by ring.
    rewrite sqrt_scaled by lra.
    assert (Hq : 0 < sqrt (vec3_dot v v)) by (apply sqrt_lt_R0; lra).
    unfold vec3_scale; simpl. f_equal; field; lra.
  - destruct (vec3_dot_zero_components v Hzero) as (Hx & Hy & Hz).
    unfold vec3_normalize, vec3_scale; simpl. rewrite Hx, Hy, Hz.
    f_equal; ring.
Qed.

Lemma vec3_length_scale (v : vec3) (s : R) :
  vec3_length (vec3_scale v s) = Rabs s * vec3_length v.
Proof.
  rewrite !vec3_length_sqrt_dot, vec3_dot_scale.
  pose proof (vec3_dot_self_nonneg v) as Hn.
  replace (s * s * vec3_dot v v) with (Rabs s * Rabs s * vec3_dot v v).
  - apply sqrt_scaled; [apply Rabs_pos | exact Hn].
  - f_equal. unfold Rabs. destruct (Rcase_abs s); ring.
Qed.

Lemma vec3_length_pos_dot (v : vec3) : 0 < vec3_length v -> 0 < vec3_dot v v.
Proof.
  rewrite vec3_length_sqrt_dot. intros Hl.
  destruct (Rgt_dec (vec3_dot v v) 0) as [Hpos | Hzero]; [lra |].
  pose proof (vec3_dot_self_nonneg v) as Hn.
  assert (Hz : vec3_dot v v = 0) by lra.
  rewrite Hz, sqrt_0 in Hl. lra.
Qed.

(** The eye-to-center offset after a zoom step of [k] along a current
    [forward] vector. *)
Lemma zoom_offset (e c : vec3) (k : R) :
  0 < vec3_length (vec3_sub e c) ->
  vec3_sub (vec3_add e (vec3_scale (vec3_normalize (vec3_sub e c)) (- k))) c
  = vec3_scale (vec3_sub e c) (1 - k / vec3_length (vec3_sub e c)).
Proof.
  intros Hd. pose proof (vec3_length_pos_dot _ Hd) as Hpos.
  rewrite vec3_normalize_scale by exact Hpos.
  rewrite vec3_length_sqrt_dot in *.
  set (q := sqrt (vec3_dot (vec3_sub e c) (vec3_sub e c))) in *.
  clearbody q.
  unfold vec3_sub, vec3_add, vec3_scale; simpl. f_equal; field; lra.
Qed.

Lemma vec3_normalize_nonneg_scale (v : vec3) :
  exists k, 0 <= k /\ vec3_normalize v = vec3_scale v k.
Proof.
  unfold vec3_normalize, vec3_scale.
  destruct (Rgt_dec _ 0) as [Hpos | Hzero].
  - eexists; split; [| reflexivity].
    apply Rlt_le, Rdiv_lt_0_compat; [lra |]. apply sqrt_lt_R0. lra.
  - eexists; split; [| reflexivity].
    assert (0 <= vx v * vx v) by nra. assert (0 <= vy v * vy v) by nra.
    assert (0 <= vz v * vz v) by nra. lra.
Qed.

(** The vectors [updateViewSpaceVectors] derives from a forward vector:
    [right] has no vertical part and [up] no downward part. *)
Lemma view_space_vectors_upright (f : vec3) :
  let r := vec3_normalize (vec3_cross (V3 0 1 0) f) in
  vy r = 0 /\ 0 <= vy (vec3_normalize (vec3_cross f r)).
Proof.
  intros r. unfold r.
  destruct (vec3_normalize_nonneg_scale (vec3_cross (V3 0 1 0) f))
    as (k & Hk & ->).
  destruct (vec3_normalize_nonneg_scale
              (vec3_cross f (vec3_scale (vec3_cross (V3 0 1 0) f) k)))
    as (k' & Hk' & ->).
  destruct f as [fx fy fz].
  unfold vec3_cross, vec3_scale; cbn [vx vy vz]. split.
  - ring.
  - replace ((fz * ((1 * fz - 0 * fy) * k) - fx * ((0 * fy - 1 * fx) * k)) * k')
      with (k * k' * (fz * fz + fx * fx)) by ring.
    apply Rmult_le_pos; [apply Rmult_le_pos; assumption | nra].
Qed.

Section CameraControls.
Context `{GlMatrixLib}.

(** X7.  Panning (middle button, or left button with space, and neither
    zoom nor rotation) moves the eye and the center by the same vector in
    the plane of [right] and [up]: the offset from the center to the eye,
    and with it the three view-space vectors, are those of the camera
    before the step, and the projection is untouched. *)
Theorem BaseCamera_update_pan inp dt (c : Camera) :
  isMouseDown inp 2 = false ->
  isMouseDown inp 0 && negb (isKeyDown inp " ") = false ->
  isMouseDown inp 1 || (isMouseDown inp 0 && isKeyDown inp " ") = true ->
  let t := vec3_add
             (vec3_scale (right c) (-0.75 * getMouseDx inp * dt))
             (vec3_scale (up c) (0.75 * getMouseDy inp * dt)) in
  exists c',
    BaseCamera_update inp dt c = (Ok true, c')
    /\ eye c' = vec3_add (eye c) t
    /\ center c' = vec3_add (center c) t
    /\ vec3_sub (eye c') (center c') = vec3_sub (eye c) (center c)
    /\ forward c' = forward (BaseCamera_updateViewSpaceVectors c)
    /\ right c' = right (BaseCamera_updateViewSpaceVectors c)
    /\ up c' = up (BaseCamera_updateViewSpaceVectors c)
    /\ view c' = mat4_lookAt (eye c') (center c') (up c')
    /\ projection c' = projection c.
Proof.
  intros Hz Hr Hp t. unfold BaseCamera_update.
  rewrite Hz, Hr, Hp. cbv beta iota zeta.
  eexists; split; [reflexivity |].
  unfold BaseCamera_updateViewSpaceVectors, set_view, set_eye, set_center;
    cbn [eye center forward right up view projection cam_class].
  fold t. rewrite !vec3_sub_add_same.
  repeat split; reflexivity.
Qed.

(** X8.  Zooming (right button only) by less than the distance to the
    center moves the eye along the line of sight: the center and the
    viewing direction stay, and the distance shrinks by exactly
    [getMouseDy * delta_time] (or grows, when that is negative). *)
Theorem BaseCamera_update_zoom inp dt (c : Camera) :
  isMouseDown inp 2 = true ->
  isMouseDown inp 0 = false ->
  isMouseDown inp 1 = false ->
  forward c = vec3_normalize (vec3_sub (eye c) (center c)) ->
  0 < focus_distance c ->
  getMouseDy inp * dt < focus_distance c ->
  exists c',
    BaseCamera_update inp dt c = (Ok true, c')
    /\ center c' = center c
    /\ forward c' = forward c
    /\ focus_distance c' = focus_distance c - getMouseDy inp * dt.
Proof.
  unfold focus_distance. intros Hz Hr Hp Hf Hd Hk. unfold BaseCamera_update.
  rewrite Hz, Hr, Hp. cbv beta iota zeta. cbn [andb orb].
  eexists; split; [reflexivity |].
  unfold BaseCamera_updateViewSpaceVectors, set_view, set_eye, set_center;
    cbn [eye center forward right up view projection cam_class].
  rewrite Hf.
  replace (- getMouseDy inp * dt) with (- (getMouseDy inp * dt)) by ring.
  rewrite zoom_offset by exact Hd.
  set (d := vec3_length (vec3_sub (eye c) (center c))) in *.
  assert (Hs : 0 < 1 - getMouseDy inp * dt / d).
  { apply Rmult_lt_reg_r with d; [exact Hd |]. field_simplify; lra. }
  repeat split.
  - apply vec3_normalize_scale_pos; exact Hs.
  - rewrite vec3_length_scale, Rabs_pos_eq by lra. fold d. field. lra.
Qed.

(** X9.  Zooming by more than the distance to the center carries the
    eye through the center: the camera then looks the opposite way. *)
Theorem BaseCamera_update_zoom_through inp dt (c : Camera) :
  isMouseDown inp 2 = true ->
  isMouseDown inp 0 = false ->
  isMouseDown inp 1 = false ->
  forward c = vec3_normalize (vec3_sub (eye c) (center c)) ->
  0 < focus_distance c ->
  focus_distance c < getMouseDy inp * dt ->
  exists c',
    BaseCamera_update inp dt c = (Ok true, c')
    /\ center c' = center c
    /\ forward c' = vec3_scale (forward c) (-1)
    /\ focus_distance c' = getMouseDy inp * dt - focus_distance c.
Proof.
  unfold focus_distance. intros Hz Hr Hp Hf Hd Hk. unfold BaseCamera_update.
  rewrite Hz, Hr, Hp. cbv beta iota zeta. cbn [andb orb].
  eexists; split; [reflexivity |].
  unfold BaseCamera_updateViewSpaceVectors, set_view, set_eye, set_center;
    cbn [eye center forward right up view projection cam_class].
  rewrite Hf.
  replace (- getMouseDy inp * dt) with (- (getMouseDy inp * dt)) by ring.
  rewrite zoom_offset by exact Hd.
  set (d := vec3_length (vec3_sub (eye c) (center c))) in *.
  assert (Hs : 1 - getMouseDy inp * dt / d < 0).
  { apply Rmult_lt_reg_r with d; [exact Hd |]. field_simplify; lra. }
  repeat split.
  - apply vec3_normalize_scale_neg; exact Hs.
  - rewrite vec3_length_scale, Rabs_left by lra. fold d. field. lra.
Qed.

(** Rotating about a zero [right] vector: the library answers [null]
    and [update] raises with only the eye assigned. *)
Lemma BaseCamera_update_rotate_null inp dt (c : Camera) :
  right c = V3 0 0 0 ->
  (forall angle, mat4_fromRotation angle (V3 0 0 0) = None) ->
  isMouseDown inp 0 = true -> isKeyDown inp " " = false ->
  exists e c',
    BaseCamera_update inp dt c = (Throw e, c')
    /\ view c' = view c
    /\ forward c' = forward c /\ right c' = right c /\ up c' = up c
    /\ center c' = center c
    /\ projection c' = projection c.
Proof.
  intros Hright Hnull H0 Hsp.
  unfold BaseCamera_update. rewrite H0, Hsp. cbn [andb negb orb].
  destruct (isMouseDown inp 2); cbv beta iota zeta;
    unfold set_eye; cbn [eye center forward right up view projection cam_class];
    rewrite Hright, Hnull; eexists _, _; (split; [reflexivity |]);
    repeat split; reflexivity.
Qed.

(** X10.  A camera constructed looking straight up or down (or with the
    eye at the center) cannot be rotated: its [right] vector is zero, the
    library answers [null] for a rotation about it, and [update] raises
    after it has already moved the eye.  The view matrix and the
    view-space vectors are then those from before the call. *)
Theorem overhead_camera_rotate_raises eye0 center0 proj cls inp dt :
  vx eye0 = vx center0 -> vz eye0 = vz center0 ->
  (forall angle, mat4_fromRotation angle (V3 0 0 0) = None) ->
  isMouseDown inp 0 = true -> isKeyDown inp " " = false ->
  let c := new_BaseCamera eye0 center0 proj cls in
  exists e c',
    BaseCamera_update inp dt c = (Throw e, c')
    /\ view c' = view c
    /\ forward c' = forward c /\ right c' = right c /\ up c' = up c
    /\ center c' = center c
    /\ projection c' = projection c.
Proof.
  intros Hx Hzz Hnull H0 Hsp c.
  apply BaseCamera_update_rotate_null; try assumption.
  unfold c, new_BaseCamera; cbn [right].
  apply updateViewSpaceVectors_vertical; assumption.
Qed.

Lemma updateViewSpaceVectors_upright (c : Camera) :
  upright_frame (BaseCamera_updateViewSpaceVectors c).
Proof.
  unfold upright_frame, BaseCamera_updateViewSpaceVectors; cbn [right up].
  apply view_space_vectors_upright.
Qed.

(** X11.  The camera never rolls: whatever the eye and the center,
    [updateViewSpaceVectors] leaves [right] horizontal and [up] not
    pointing below the horizon; so do the constructors, and so does every
    [update] that reports a change. *)
Theorem camera_never_rolls :
  (forall c, upright_frame (BaseCamera_updateViewSpaceVectors c))
  /\ (forall eye0 center0 proj cls,
        upright_frame (new_BaseCamera eye0 center0 proj cls))
  /\ (forall eye0 center0 fovy aspect near far,
        upright_frame
          (new_PerspectiveCamera eye0 center0 fovy aspect near far))
  /\ (forall eye0 center0 l r b t near far,
        upright_frame (new_OrthoCamera eye0 center0 l r b t near far))
  /\ (forall inp dt c c',
        BaseCamera_update inp dt c = (Ok true, c') -> upright_frame c').
Proof.
  assert (Hnew : forall eye0 center0 proj cls,
             upright_frame (new_BaseCamera eye0 center0 proj cls)).
  { intros eye0 center0 proj cls.
    exact (updateViewSpaceVectors_upright
             (mkCamera eye0 center0 vec3_create vec3_create vec3_create
                       mat4_identity proj cls)). }
  split; [exact updateViewSpaceVectors_upright |].
  split; [exact Hnew |].
  split; [intros; apply Hnew |].
  split; [intros; apply Hnew |].
  intros inp dt c c' Hrun.
  destruct (BaseCamera_update_dirty _ _ _ _ Hrun) as [c1 ->].
  apply (updateViewSpaceVectors_upright c1).
Qed.

(** No outcome of [update] changes the projection. *)
Lemma BaseCamera_update_projection inp dt (c : Camera) :
  projection (snd (BaseCamera_update inp dt c)) = projection c
  /\ cam_class (snd (BaseCamera_update inp dt c)) = cam_class c.
Proof.
  unfold BaseCamera_update.
  destruct (isMouseDown inp 2);
    destruct (isMouseDown inp 0 && negb (isKeyDown inp " "));
    try destruct (mat4_fromRotation _ _);
    destruct (isMouseDown inp 1 || isMouseDown inp 0 && isKeyDown inp " ");
    split; reflexivity.
Qed.

(** An [update] that raises has assigned the eye only. *)
Lemma BaseCamera_update_raise inp dt (c : Camera) e :
  fst (BaseCamera_update inp dt c) = Throw e ->
  view (snd (BaseCamera_update inp dt c)) = view c
  /\ center (snd (BaseCamera_update inp dt c)) = center c
  /\ forward (snd (BaseCamera_update inp dt c)) = forward c
  /\ right (snd (BaseCamera_update inp dt c)) = right c
  /\ up (snd (BaseCamera_update inp dt c)) = up c.
Proof.
  unfold BaseCamera_update.
  destruct (isMouseDown inp 2);
    destruct (isMouseDown inp 0 && negb (isKeyDown inp " "));
    try destruct (mat4_fromRotation _ _);
    destruct (isMouseDown inp 1 || isMouseDown inp 0 && isKeyDown inp " ");
    cbv beta iota zeta; cbn [fst snd]; intros Heq;
    try discriminate Heq; repeat split.
Qed.

End CameraControls.

(** * Lights *)

Lemma string_length_app (a s : string) :
  String.length (a +:+ s) = (String.length a + String.length s)%nat.
Proof. induction a as [| c a IH]; simpl; [reflexivity | rewrite IH; reflexivity]. Qed.

(** Strings cancel on the right. *)
Lemma string_app_inv_tail (a b s : string) : a +:+ s = b +:+ s -> a = b.
Proof.
  revert b. induction a as [| c a IH]; intros [| c' b] Heq.
  - reflexivity.
  - apply (f_equal String.length) in Heq.
    rewrite !string_length_app in Heq. simpl in Heq. lia.
  - apply (f_equal String.length) in Heq.
    rewrite !string_length_app in Heq. simpl in Heq. lia.
  - simpl in Heq. injection Heq as -> Heq. f_equal. apply IH; exact Heq.
Qed.

Lemma last_char_app (s t : string) :
  t <> EmptyString -> last_char (s +:+ t) = last_char t.
Proof.
  intros Ht. induction s as [| c s IH]; [reflexivity |].
  simpl. destruct (s +:+ t) eqn:Hst.
  - destruct s; [simpl in Hst; contradiction | discriminate Hst].
  - exact IH.
Qed.

(** Names with the same prefix and suffix agree only on equal ids. *)
Lemma indexed_name_inj (prefix suffix : string) (i j : Z) :
  prefix +:+ pretty i +:+ suffix = prefix +:+ pretty j +:+ suffix -> i = j.
Proof.
  intros Heq. apply String.app_inj in Heq. apply string_app_inv_tail in Heq.
  apply pretty_Z_inj in Heq. exact Heq.
Qed.

(** Names whose suffixes end differently differ. *)
Lemma indexed_name_suffix (prefix s1 s2 : string) (i j : Z) :
  s1 <> EmptyString -> s2 <> EmptyString -> last_char s1 <> last_char s2 ->
  prefix +:+ pretty i +:+ s1 <> prefix +:+ pretty j +:+ s2.
Proof.
  intros H1 H2 Hl Heq. apply String.app_inj in Heq.
  apply (f_equal last_char) in Heq.
  rewrite !last_char_app in Heq by assumption. contradiction.
Qed.

Lemma uniforms_of_write_ne (s s' : ShaderRef) name v (e : Env) :
  s <> s' -> uniforms_of (write_uniform s name v e) s' = uniforms_of e s'.
Proof.
  intros Hne. unfold uniforms_of at 1, write_uniform; simpl.
  rewrite lookup_insert_ne by exact Hne. reflexivity.
Qed.

(** Strings that differ inside their prefixes differ. *)
Lemma diverge_app (p1 p2 x y : string) :
  diverge p1 p2 = true -> p1 +:+ x <> p2 +:+ y.
Proof.
  revert p2. induction p1 as [| a p1 IH]; intros [| b p2] Hd; try discriminate Hd.
  simpl in Hd. intros Heq.
  change (String a (p1 +:+ x) = String b (p2 +:+ y)) in Heq.
  injection Heq as Hab Heq.
  destruct (Ascii.eqb a b) eqn:Hc.
  - exact (IH p2 Hd Heq).
  - apply Ascii.eqb_neq in Hc. contradiction.
Qed.

Ltac unfold_names :=
  unfold ambient_color_name, ambient_intensity_name,
    directional_direction_name, directional_color_name,
    directional_intensity_name, point_position_name, point_color_name,
    point_intensity_name.

Ltac name_ne :=
  unfold_names;
  first
    [ (apply diverge_app; reflexivity)
    | (apply indexed_name_suffix; vm_compute; discriminate) ].

Ltac lookup_written :=
  repeat first
    [ apply lookup_insert_eq
    | rewrite lookup_insert_ne by name_ne ].

Section LightUniforms.
Context `{GlMatrixLib} `{Collaborators}.

(** X12.  Two ambient lights updated on the same shader program: the
    second one's colour and intensity are in place afterwards, no program
    is left active, and no other program's uniforms change.  The first
    one's values survive when the two ids differ; with equal ids they are
    overwritten by the second light's. *)
Theorem AmbientLight_updates_by_id (l1 l2 : Light) (ts : ShaderRef) st :
  target_shader l1 = Some ts -> target_shader l2 = Some ts ->
  exists st',
    (AmbientLight_update l1;; AmbientLight_update l2) st = (Ok tt, st')
    /\ uniforms_of (env st') ts !! ambient_color_name (id l2)
       = Some (U3f (color l2))
    /\ uniforms_of (env st') ts !! ambient_intensity_name (id l2)
       = Some (U1f (intensity l2))
    /\ (id l1 <> id l2 ->
        uniforms_of (env st') ts !! ambient_color_name (id l1)
        = Some (U3f (color l1))
        /\ uniforms_of (env st') ts !! ambient_intensity_name (id l1)
           = Some (U1f (intensity l1)))
    /\ (id l1 = id l2 ->
        uniforms_of (env st') ts !! ambient_color_name (id l1)
        = Some (U3f (color l2)))
    /\ current_program (env st') = None
    /\ (forall s, s <> ts -> uniforms_of (env st') s = uniforms_of (env st) s)
    /\ app st' = app st.
Proof.
  intros H1 H2. unfold AmbientLight_update. rewrite H1, H2.
  eexists; split.
  { run_prims. unfold prim. cbn [app env trace]. reflexivity. }
  cbn [env app]. simpl_env.
  fold (ambient_color_name (id l1)) (ambient_intensity_name (id l1))
       (ambient_color_name (id l2)) (ambient_intensity_name (id l2)).
  split; [| split; [| split; [| split; [| split; [| split]]]]].
  - rewrite lookup_insert_ne by (unfold ambient_color_name,
      ambient_intensity_name; apply indexed_name_suffix; vm_compute; discriminate).
    apply lookup_insert_eq.
  - apply lookup_insert_eq.
  - intros Hid.
    assert (Hcc : ambient_color_name (id l2) <> ambient_color_name (id l1)).
    { intros Heq. apply indexed_name_inj in Heq. congruence. }
    assert (Hii : ambient_intensity_name (id l2)
                  <> ambient_intensity_name (id l1)).
    { intros Heq. apply indexed_name_inj in Heq. congruence. }
    assert (Hic : forall i j,
               ambient_intensity_name i <> ambient_color_name j).
    { intros i j. apply indexed_name_suffix; vm_compute; discriminate. }
    assert (Hci : forall i j,
               ambient_color_name i <> ambient_intensity_name j).
    { intros i j. apply indexed_name_suffix; vm_compute; discriminate. }
    split.
    + rewrite lookup_insert_ne by apply Hic.
      rewrite lookup_insert_ne by exact Hcc.
      rewrite lookup_insert_ne by apply Hic.
      apply lookup_insert_eq.
    + rewrite lookup_insert_ne by exact Hii.
      rewrite lookup_insert_ne by apply Hci.
      apply lookup_insert_eq.
  - intros ->.
    rewrite lookup_insert_ne by (unfold ambient_color_name,
      ambient_intensity_name; apply indexed_name_suffix; vm_compute; discriminate).
    apply lookup_insert_eq.
  - reflexivity.
  - intros s Hs.
    repeat first
      [ rewrite uniforms_of_unuse | rewrite uniforms_of_use
      | rewrite uniforms_of_write_ne by congruence ].
    reflexivity.
  - reflexivity.
Qed.

(** X13.  Lights of different classes never collide, whatever their
    ids: after an ambient, a directional and a point light were updated on
    the same shader program, all eight uniforms hold what their light
    wrote, the direction being the light's rotation applied to (0, -1, 0)
    and the position the translation of its model matrix. *)
Theorem light_updates_across_classes (la ld lp : Light) (ts : ShaderRef) st :
  target_shader la = Some ts ->
  target_shader ld = Some ts ->
  target_shader lp = Some ts ->
  exists st',
    (AmbientLight_update la;; DirectionalLight_update ld;;
     PointLight_update lp) st = (Ok tt, st')
    /\ uniforms_of (env st') ts !! ambient_color_name (id la)
       = Some (U3f (color la))
    /\ uniforms_of (env st') ts !! ambient_intensity_name (id la)
       = Some (U1f (intensity la))
    /\ uniforms_of (env st') ts !! directional_direction_name (id ld)
       = Some (U3f (vec3_transformQuat (V3 0 (-1) 0)
                      (mat4_getRotation (model_matrix ld))))
    /\ uniforms_of (env st') ts !! directional_color_name (id ld)
       = Some (U3f (color ld))
    /\ uniforms_of (env st') ts !! directional_intensity_name (id ld)
       = Some (U1f (intensity ld))
    /\ uniforms_of (env st') ts !! point_position_name (id lp)
       = Some (U3f (Light_getPosition lp))
    /\ uniforms_of (env st') ts !! point_color_name (id lp)
       = Some (U3f (color lp))
    /\ uniforms_of (env st') ts !! point_intensity_name (id lp)
       = Some (U1f (intensity lp))
    /\ current_program (env st') = None.
Proof.
  intros Ha Hd Hp.
  unfold AmbientLight_update, DirectionalLight_update, PointLight_update.
  rewrite Ha, Hd, Hp.
  eexists; split.
  { run_prims. unfold prim. cbn [app env trace]. reflexivity. }
  cbn [env app]. simpl_env.
  fold (ambient_color_name (id la)) (ambient_intensity_name (id la))
       (directional_direction_name (id ld)) (directional_color_name (id ld))
       (directional_intensity_name (id ld))
       (point_position_name (id lp)) (point_color_name (id lp))
       (point_intensity_name (id lp)).
  repeat split; lookup_written.
Qed.

End LightUniforms.

(** * More on the render passes *)

Section MorePassProperties.
Context `{GlMatrixLib} `{Collaborators}.

Lemma throw_bind_run {A B} e (k : A -> M B) st :
  (throw e ≫= k) st = (Throw e, st).
Proof. reflexivity. Qed.

Lemma deref_None_bind_run {A B} what (k : A -> M B) st :
  (deref what None ≫= k) st = (Throw (TypeError what), st).
Proof. reflexivity. Qed.

(** X14.  A depth pass raises a [TypeError] before it touches anything
    when no scene is loaded, when the light has no camera (an ambient
    light, or a light of the base class), or when the index of the active
    shader is out of range: the state is the one before the call. *)
Theorem do_depth_pass_fails_early f (l : Light) st :
  scene (app st) = None
  \/ light_class l = AmbientLightClass
  \/ light_class l = BaseLightClass
  \/ shaders (app st) !! active_shader (app st) = None ->
  exists msg, do_depth_pass f l st = (Throw (TypeError msg), st).
Proof.
  intros Hcase. unfold do_depth_pass. rewrite get_app_bind_run.
  destruct (scene (app st)) as [sc |] eqn:Hsc.
  2: { eexists. apply deref_None_bind_run. }
  rewrite (deref_bind_run _ _ sc) by reflexivity.
  destruct (Light_getCamera l (mat4_getScaling (scenegraph_transformation sc)))
    as [cam |] eqn:Hcam.
  2: { eexists. apply deref_None_bind_run. }
  rewrite (deref_bind_run _ _ cam) by reflexivity.
  destruct (shaders (app st) !! active_shader (app st)) as [sh |] eqn:Hsh.
  2: { eexists. apply deref_None_bind_run. }
  exfalso. destruct Hcase as [Hc | [Hc | [Hc | Hc]]]; try discriminate Hc.
  - unfold Light_getCamera in Hcam. rewrite Hc in Hcam. discriminate Hcam.
  - unfold Light_getCamera in Hcam. rewrite Hc in Hcam. discriminate Hcam.
Qed.


(** What a light slot of the shadow pass yields when it returns. *)
Lemma depth_slot_Ok_value (o : option Light) f st m st' :
  match o with
  | Some l => do_depth_pass f l
  | None => mret mat4_identity
  end st = (Ok m, st') ->
  app st' = app st
  /\ (forall sc, scene (app st) = Some sc -> m = shadow_matrix sc o)
  /\ (forall l, o = Some l ->
      exists sc,
        scene (app st) = Some sc
        /\ is_Some (Light_getCamera l
                      (mat4_getScaling (scenegraph_transformation sc)))
        /\ is_Some (shaders (app st) !! active_shader (app st))).
Proof.
  destruct o as [l |].
  - intros Hrun. apply do_depth_pass_Ok_inv in Hrun
      as (sc & cam & sh & e1 & e2 & Hsc & Hcam & Hsh & Hm & _ & Happ & _).
    split; [exact Happ |]. split.
    + intros sc' Hsc'. rewrite Hsc in Hsc'. injection Hsc' as <-.
      unfold shadow_matrix. rewrite Hcam. exact Hm.
    + intros l' Hl. injection Hl as <-. exists sc.
      rewrite Hcam, Hsh. split; [exact Hsc |].
      split; eexists; reflexivity.
  - intros Hrun. injection Hrun as <- <-.
    split; [reflexivity |]. split; [reflexivity |].
    intros l Hl. discriminate Hl.
Qed.

Lemma gizmo_Ok_shader (o : option Light) st u st' :
  when_some o Light_render st = (Ok u, st') ->
  forall l, o = Some l -> is_Some (shader l).
Proof.
  intros Hrun l ->. simpl in Hrun. unfold Light_render in Hrun.
  apply bind_Ok_inv in Hrun as (s & st1 & Hs & _).
  apply deref_Ok_inv in Hs as [Hs _]. rewrite Hs. eexists; reflexivity.
Qed.

(** X16.  When the composite pass draws the scene, the shadow shader
    holds the main camera in [u_eye], [u_v] and [u_p], and in
    [u_shadow_pv_point] and [u_shadow_pv_directional] the product
    projection * view of the camera of the tracked point and directional
    light at the scale of the scene (the identity for a light that is not
    tracked); no program is active. *)
Theorem renderpass_shadowmap_draw_uniforms w h st st' :
  renderpass_shadowmap w h st = (Ok tt, st') ->
  exists sc sh e_draw e_after,
    scene (app st) = Some sc
    /\ shadow_shader (app st) = Some sh
    /\ ext_call (SceneRender (Some ["light"])) e_draw = (None, e_after)
    /\ uniforms_of e_draw sh !! "u_shadow_pv_point"
       = Some (U4x4f (shadow_matrix sc (first_point_light (app st))))
    /\ uniforms_of e_draw sh !! "u_shadow_pv_directional"
       = Some (U4x4f (shadow_matrix sc (first_directional_light (app st))))
    /\ uniforms_of e_draw sh !! "u_eye"
       = Some (U3f (getEye (camera (app st))))
    /\ uniforms_of e_draw sh !! "u_v"
       = Some (U4x4f (getViewMatrix (camera (app st))))
    /\ uniforms_of e_draw sh !! "u_p"
       = Some (U4x4f (getProjectionMatrix (camera (app st))))
    /\ current_program e_draw = None.
Proof.
  unfold renderpass_shadowmap. intros Hrun.
  step Hrun.
  apply bind_Ok_inv in Hrun as (pv_d & st1 & Hdir & Hrun).
  apply depth_slot_Ok_value in Hdir as (Happ1 & Hvd & _).
  step Hrun.
  apply bind_Ok_inv in Hrun as (pv_p & st2 & Hpt & Hrun).
  apply depth_slot_Ok_value in Hpt as (Happ2 & Hvp & _).
  step Hrun.
  apply bind_Ok_inv in Hrun as (u1 & st3 & Hclear & Hrun).
  unfold clearCanvas in Hclear.
  step Hclear. step_prim Hclear. cbn [app env trace] in Hclear. subst st3.
  repeat step Hrun.
  clear Hrun.
  cbn [app env trace fbo set_fbo] in *.
  rewrite Happ2, Happ1 in *.
  match goal with
  | Hscene : scene (app st) = Some ?sc,
    Hsh : shadow_shader (app st) = Some ?s,
    Hdraw : ext_call (SceneRender _) ?e = (None, ?e') |- _ =>
      pose proof (Hvd sc Hscene) as Hd'; pose proof (Hvp sc Hscene) as Hp';
      clear Hvd Hvp; subst pv_d pv_p;
      exists sc, s; eexists _, e'; split; [exact Hscene |];
      split; [exact Hsh |]; split; [exact Hdraw |]
  end.
  repeat split;
    first
      [ (simpl_env; rewrite ?lookup_insert_ne by discriminate;
         apply lookup_insert_eq)
      | reflexivity ].
Qed.

Lemma depth_slot_total (o : option Light) f st sc :
  scene (app st) = Some sc ->
  (forall l, o = Some l -> light_ready (app st) sc l) ->
  never_raises ->
  exists m st',
    match o with
    | Some l => do_depth_pass f l
    | None => mret mat4_identity
    end st = (Ok m, st')
    /\ app st' = app st.
Proof.
  intros Hsc Hready Hnr. destruct o as [l |].
  - destruct (Hready l eq_refl) as ([cam Hcam] & [sh Hsh] & _).
    destruct (do_depth_pass_total f l st sc cam sh Hnr Hsc Hcam Hsh)
      as [st' Hrun].
    eexists _, st'. split; [exact Hrun |].
    apply do_depth_pass_Ok_inv in Hrun
      as (sc' & cam' & sh' & e1 & e2 & _ & _ & _ & _ & _ & Happ & _).
    exact Happ.
  - eexists _, _. split; reflexivity.
Qed.

Lemma gizmo_total (o : option Light) st :
  (forall l, o = Some l -> is_Some (shader l)) ->
  never_raises ->
  exists st', when_some o Light_render st = (Ok tt, st') /\ app st' = app st.
Proof.
  intros Hs Hnr. destruct o as [l |]; simpl.
  - destruct (Hs l eq_refl) as [s Hsh]. unfold Light_render.
    run_forward Hnr.
    rewrite call_ext_total by exact Hnr. eexists; split; reflexivity.
  - eexists; split; reflexivity.
Qed.

(** With collaborators that return, the shadow pass returns when
    everything it dereferences exists. *)
Lemma renderpass_shadowmap_ready_returns w h st :
  never_raises -> shadowmap_ready (app st) ->
  exists st', renderpass_shadowmap w h st = (Ok tt, st').
Proof.
  intros Hnr (sc & Hsc & [sh Hsh] & Hd & Hp).
  unfold renderpass_shadowmap. rewrite get_app_bind_run.
  destruct (depth_slot_total (first_directional_light (app st))
              FboDirectional st sc Hsc Hd Hnr)
    as (m1 & st1 & Hrun1 & Happ1).
  rewrite bind_run, Hrun1. rewrite get_app_bind_run, Happ1.
  assert (Hsc1 : scene (app st1) = Some sc) by (rewrite Happ1; exact Hsc).
  assert (Hp1 : forall l, first_point_light (app st) = Some l ->
                          light_ready (app st1) sc l)
    by (rewrite Happ1; exact Hp).
  destruct (depth_slot_total (first_point_light (app st))
              FboPoint st1 sc Hsc1 Hp1 Hnr)
    as (m2 & st2 & Hrun2 & Happ2).
  rewrite bind_run, Hrun2.
  assert (Hsc2 : scene (app st2) = Some sc)
    by (rewrite Happ2, Happ1; exact Hsc).
  assert (Hsh2 : shadow_shader (app st2) = Some sh)
    by (rewrite Happ2, Happ1; exact Hsh).
  run_forward Hnr.
  unfold set_fbo; cbn [first_directional_light first_point_light fbo].
  rewrite Happ2, Happ1.
  match goal with
  | |- context [(when_some ?o Light_render ≫= ?k) ?s] =>
      destruct (gizmo_total o s) as (st3 & Hg1 & Happ3);
      [ intros l Hl; apply (Hd l Hl) | exact Hnr | ];
      rewrite (bind_run (when_some o Light_render) k s), Hg1
  end.
  match goal with
  | |- context [(when_some ?o Light_render ≫= ?k) ?s] =>
      destruct (gizmo_total o s) as (st4 & Hg2 & Happ4);
      [ intros l Hl; apply (Hp l Hl) | exact Hnr | ];
      rewrite (bind_run (when_some o Light_render) k s), Hg2
  end.
  run_forward Hnr.
  eexists; reflexivity.
Qed.

(** X17.  With collaborators that return, the shadow pass returns
    exactly when everything it dereferences exists: a scene, the shadow
    shader and, for each tracked light, a camera, the active shader and
    the shader of its gizmo. *)
Theorem renderpass_shadowmap_returns_iff w h st :
  never_raises ->
  (exists st', renderpass_shadowmap w h st = (Ok tt, st'))
  <-> shadowmap_ready (app st).
Proof.
  intros Hnr. split.
  - intros [st' Hrun]. unfold renderpass_shadowmap in Hrun.
    step Hrun.
    apply bind_Ok_inv in Hrun as (pv_d & st1 & Hdir & Hrun).
    apply depth_slot_Ok_value in Hdir as (Happ1 & _ & Hrd).
    step Hrun.
    apply bind_Ok_inv in Hrun as (pv_p & st2 & Hpt & Hrun).
    apply depth_slot_Ok_value in Hpt as (Happ2 & _ & Hrp).
    step Hrun.
    apply bind_Ok_inv in Hrun as (u1 & st3 & Hclear & Hrun).
    unfold clearCanvas in Hclear.
    step Hclear. step_prim Hclear. cbn [app env trace] in Hclear. subst st3.
    repeat step Hrun.
    apply bind_Ok_inv in Hrun as (u2 & st4 & Hg1 & Hrun).
    pose proof (gizmo_Ok_shader _ _ _ _ Hg1) as Hsd.
    apply gizmo_Ok_inv in Hg1 as (Happ4 & _).
    apply bind_Ok_inv in Hrun as (u3 & st5 & Hg2 & _).
    pose proof (gizmo_Ok_shader _ _ _ _ Hg2) as Hsp.
    clear Hg2.
    cbn [app env trace fbo set_fbo first_directional_light
         first_point_light] in *.
    rewrite Happ2, Happ1 in *.
    match goal with
    | Hscene : scene (app st) = Some ?sc,
      Hsh : shadow_shader (app st) = Some ?s |- _ =>
        exists sc; split; [exact Hscene |];
        split; [rewrite Hsh; eexists; reflexivity |];
        split; intros l Hl
    end.
    + destruct (Hrd l Hl) as (sc' & Hsc' & Hcam & Hact).
      match goal with
      | Hscene : scene (app st) = Some _ |- _ =>
          rewrite Hscene in Hsc'; injection Hsc' as <-
      end.
      split; [exact Hcam |]. split; [exact Hact |]. exact (Hsd l Hl).
    + destruct (Hrp l Hl) as (sc' & Hsc' & Hcam & Hact).
      match goal with
      | Hscene : scene (app st) = Some _ |- _ =>
          rewrite Hscene in Hsc'; injection Hsc' as <-
      end.
      split; [exact Hcam |]. split; [exact Hact |]. exact (Hsp l Hl).
  - intros Hready.
    exact (renderpass_shadowmap_ready_returns w h st Hnr Hready).
Qed.

(** X18.  Without a scene, the normal pass raises a [TypeError] before
    any call; the pixel-filter pass raises it too, but only after it has
    resized and bound [this.fbo], which is left as the render target. *)
Theorem renderpass_pixel_filter_without_scene w h ex st :
  scene (app st) = None ->
  renderpass_normal w h ex st = (Throw (TypeError "this.scene"), st)
  /\ exists st',
       renderpass_pixel_filter w h st = (Throw (TypeError "this.scene"), st')
       /\ app st' = app st
       /\ bound_framebuffer (env st') = Some (fbo (app st))
       /\ fbo_width (env st') (fbo (app st)) = w
       /\ fbo_height (env st') (fbo (app st)) = h
       /\ trace st' =
          trace st ++ [EvFboResize (fbo (app st)) w h;
                       EvFboBind (fbo (app st))].
Proof.
  intros Hsc. split.
  - unfold renderpass_normal. rewrite get_app_bind_run, Hsc. reflexivity.
  - unfold renderpass_pixel_filter. run_prims.
    rewrite bind_run. unfold renderpass_normal at 1.
    rewrite get_app_bind_run. cbn [app]. rewrite Hsc.
    rewrite deref_None_bind_run.
    eexists; split; [reflexivity |]. cbn [app env trace].
    split; [reflexivity |]. split; [reflexivity |].
    unfold resize_fbo, bind_fbo; cbn [fbo_width fbo_height].
    rewrite !decide_True by reflexivity.
    split; [reflexivity |]. split; [reflexivity |].
    rewrite <- app_assoc. reflexivity.
Qed.

(** *** Opening a scene *)

Lemma track_light_fields (a : App) (n : SceneNode) :
  first_directional_light (track_light a n)
  = match first_directional_light a with
    | Some l => Some l
    | None => if is_light_of DirectionalLightClass n then node_light n
              else None
    end
  /\ first_point_light (track_light a n)
     = match first_point_light a with
       | Some l => Some l
       | None => if is_light_of PointLightClass n then node_light n
                 else None
       end
  /\ shaders (track_light a n) = shaders a
  /\ shadow_shader (track_light a n) = shadow_shader a
  /\ active_shader (track_light a n) = active_shader a
  /\ scene (track_light a n) = scene a
  /\ camera (track_light a n) = camera a
  /\ filter_mode (track_light a n) = filter_mode a
  /\ fbo (track_light a n) = fbo a.
Proof.
  unfold track_light, is_light_of.
  destruct (String.eqb (node_type n) "light");
    destruct (is_instance DirectionalLightClass (node_light n));
    destruct (is_instance PointLightClass (node_light n));
    destruct (first_directional_light a) eqn:Hd;
    destruct (first_point_light a) eqn:Hp;
    cbn [andb set_first_directional_light set_first_point_light
         first_directional_light first_point_light shaders shadow_shader
         active_shader scene camera filter_mode fbo];
    rewrite ?Hd, ?Hp;
    cbn [set_first_directional_light set_first_point_light
         first_directional_light first_point_light shaders shadow_shader
         active_shader scene camera filter_mode fbo];
    repeat split; assumption.
Qed.

Lemma track_lights_first (nodes : list SceneNode) (a : App) :
  first_directional_light (fold_left track_light nodes a)
  = match first_directional_light a with
    | Some l => Some l
    | None => first_light DirectionalLightClass nodes
    end
  /\ first_point_light (fold_left track_light nodes a)
     = match first_point_light a with
       | Some l => Some l
       | None => first_light PointLightClass nodes
       end
  /\ shaders (fold_left track_light nodes a) = shaders a
  /\ shadow_shader (fold_left track_light nodes a) = shadow_shader a
  /\ active_shader (fold_left track_light nodes a) = active_shader a
  /\ scene (fold_left track_light nodes a) = scene a
  /\ camera (fold_left track_light nodes a) = camera a
  /\ filter_mode (fold_left track_light nodes a) = filter_mode a
  /\ fbo (fold_left track_light nodes a) = fbo a.
Proof.
  revert a. induction nodes as [| n nodes IH]; intros a.
  - simpl. unfold first_light; simpl.
    destruct (first_directional_light a), (first_point_light a);
      repeat split.
  - simpl.
    destruct (IH (track_light a n))
      as (Hd & Hp & H1 & H2 & H3 & H4 & H5 & H6 & H7).
    destruct (track_light_fields a n)
      as (Hd' & Hp' & H1' & H2' & H3' & H4' & H5' & H6' & H7').
    rewrite Hd, Hp, H1, H2, H3, H4, H5, H6, H7.
    rewrite Hd', Hp', H1', H2', H3', H4', H5', H6', H7'.
    unfold first_light; simpl.
    repeat split.
    + destruct (first_directional_light a); [reflexivity |].
      unfold is_light_of at 1 3.
      destruct (String.eqb (node_type n) "light"); simpl; [| reflexivity].
      destruct (node_light n) as [l |] eqn:Hl; simpl; [| reflexivity].
      destruct (light_class l); simpl; rewrite ?Hl; reflexivity.
    + destruct (first_point_light a); [reflexivity |].
      unfold is_light_of at 1 3.
      destruct (String.eqb (node_type n) "light"); simpl; [| reflexivity].
      destruct (node_light n) as [l |] eqn:Hl; simpl; [| reflexivity].
      destruct (light_class l); simpl; rewrite ?Hl; reflexivity.
Qed.

Lemma first_light_class cls nodes l :
  first_light cls nodes = Some l ->
  cls = DirectionalLightClass \/ cls = PointLightClass ->
  light_class l = cls.
Proof.
  unfold first_light. destruct (find (is_light_of cls) nodes) as [n |] eqn:Hf;
    [| discriminate].
  apply find_some in Hf as [_ Hn]. intros Hl Hcls.
  unfold is_light_of in Hn. apply andb_true_iff in Hn as [_ Hn].
  rewrite Hl in Hn. simpl in Hn.
  destruct Hcls as [-> | ->]; destruct (light_class l);
    try discriminate Hn; reflexivity.
Qed.

Lemma openScene_total sc st :
  never_raises -> exists st', openScene sc st = (Ok sc, st').
Proof.
  intros Hnr. unfold openScene. run_forward Hnr.
  eexists; reflexivity.
Qed.

(** X19.  [openScene] that returns has installed the scene and tracks,
    for each of the two kinds, the light of the first node in scene order
    that is a directional (point) light, and none if there is no such
    node; lights tracked for an earlier scene are forgotten.  Every
    tracked light has a camera, so a later depth pass does not fail for
    the lack of one.  The shaders and the camera are untouched. *)
Theorem openScene_tracks_first_lights sc st sc' st' :
  openScene sc st = (Ok sc', st') ->
  sc' = sc
  /\ scene (app st') = Some sc
  /\ first_directional_light (app st')
     = first_light DirectionalLightClass (scene_nodes sc)
  /\ first_point_light (app st')
     = first_light PointLightClass (scene_nodes sc)
  /\ (forall l scale,
        first_directional_light (app st') = Some l
        \/ first_point_light (app st') = Some l ->
        is_Some (Light_getCamera l scale))
  /\ shaders (app st') = shaders (app st)
  /\ shadow_shader (app st') = shadow_shader (app st)
  /\ active_shader (app st') = active_shader (app st)
  /\ camera (app st') = camera (app st).
Proof.
  unfold openScene. intros Hrun.
  repeat step Hrun.
  injection Hrun as <- <-. cbn [app].
  match goal with
  | |- context [fold_left track_light ?ns ?a0] =>
      destruct (track_lights_first ns a0)
        as (Hd & Hp & Hf1 & Hf2 & Hf3 & Hf4 & Hf5 & _ & _)
  end.
  cbn [first_directional_light first_point_light set_scene
       set_first_directional_light set_first_point_light
       shaders shadow_shader active_shader scene camera] in *.
  rewrite Hd, Hp, Hf1, Hf2, Hf3, Hf4, Hf5.
  repeat split.
  intros l scale [Hl | Hl].
  - apply first_light_class in Hl; [| left; reflexivity].
    unfold Light_getCamera. rewrite Hl. eexists; reflexivity.
  - apply first_light_class in Hl; [| right; reflexivity].
    unfold Light_getCamera. rewrite Hl. eexists; reflexivity.
Qed.

(** X20.  When [scene.setShader] raises inside [openScene], the new
    scene is already installed and the tracked lights are already reset:
    the application is left with the new scene and no tracked light,
    whatever the scene holds. *)
Theorem openScene_setShader_raises sc st e env' :
  ext_call (SceneSetShader (shaders (app st) !! active_shader (app st)))
           (env st) = (Some e, env') ->
  exists st',
    openScene sc st = (Throw e, st')
    /\ scene (app st') = Some sc
    /\ first_directional_light (app st') = None
    /\ first_point_light (app st') = None
    /\ env st' = env'
    /\ trace st' =
       trace st ++
       [EvExt (SceneSetShader (shaders (app st) !! active_shader (app st)))].
Proof.
  intros Hext. unfold openScene.
  run_prims. rewrite bind_run. unfold call_ext at 1.
  cbn [app env trace set_scene set_first_point_light
       set_first_directional_light shaders active_shader].
  rewrite Hext.
  eexists; split; [reflexivity |]. repeat split.
Qed.

End MorePassProperties.

(** * Construction and camera control *)

Section AppStateProperties.
Context `{GlMatrixLib}.


(** The loop of [updateAppStates] over a list of shaders. *)
Lemma camera_loop_run (xs : list ShaderRef) (st : State) :
  exists st',
    for_of xs (fun shader =>
      Shader_use shader;;
      a ← get_app;
      setUniform3f shader "u_eye" (getEye (camera a));;
      a ← get_app;
      setUniform4x4f shader "u_v" (getViewMatrix (camera a));;
      Shader_unuse shader) st = (Ok tt, st')
    /\ app st' = app st
    /\ (forall s, In s xs ->
          uniforms_of (env st') s !! "u_eye"
          = Some (U3f (eye (camera (app st))))
          /\ uniforms_of (env st') s !! "u_v"
             = Some (U4x4f (view (camera (app st)))))
    /\ (forall s, ~ In s xs -> uniforms_of (env st') s = uniforms_of (env st) s)
    /\ (forall s name, name <> "u_eye" -> name <> "u_v" ->
          uniforms_of (env st') s !! name = uniforms_of (env st) s !! name).
Proof.
  revert st. induction xs as [| x xs IH]; intros st.
  - exists st. repeat split; intros; contradiction.
  - cbn [for_of]. run_prims.
    match goal with
    | |- context [for_of xs ?body ?s1] =>
        destruct (IH s1) as (st' & Hrun & Happ & Hin & Hout & Hname)
    end.
    cbn [app env trace] in *.
    exists st'. split; [exact Hrun |]. split; [exact Happ |].
    unfold getEye, getViewMatrix in *.
    split; [| split].
    + intros s Hs. destruct (in_dec Nat.eq_dec s xs) as [Hxs | Hxs].
      * apply Hin; exact Hxs.
      * destruct Hs as [<- | Hs]; [| contradiction].
        rewrite (Hout x Hxs).
        rewrite uniforms_of_unuse, !uniforms_of_write, uniforms_of_use.
        split.
        -- rewrite lookup_insert_ne by discriminate. apply lookup_insert_eq.
        -- apply lookup_insert_eq.
    + intros s Hs.
      assert (Hx : x <> s) by (intros ->; apply Hs; left; reflexivity).
      rewrite Hout by (intros Hin'; apply Hs; right; exact Hin').
      rewrite uniforms_of_unuse, !uniforms_of_write_ne by exact Hx.
      reflexivity.
    + intros s name Hn1 Hn2. rewrite (Hname s name Hn1 Hn2).
      rewrite uniforms_of_unuse.
      destruct (Nat.eq_dec x s) as [<- | Hx].
      * rewrite !uniforms_of_write, uniforms_of_use.
        rewrite !lookup_insert_ne by congruence. reflexivity.
      * rewrite !uniforms_of_write_ne by exact Hx. reflexivity.
Qed.

Lemma updateAppStates_camera_total inp dt st dirty :
  fst (BaseCamera_update inp dt (camera (app st))) = Ok dirty ->
  exists st', updateAppStates_camera inp dt st = (Ok tt, st').
Proof.
  unfold updateAppStates_camera. rewrite get_app_bind_run.
  destruct (BaseCamera_update inp dt (camera (app st))) as [r c].
  cbn [fst]. intros ->. rewrite set_app_bind_run.
  destruct dirty.
  - rewrite get_app_bind_run. cbn [app].
    match goal with
    | |- context [for_of ?xs _ ?s1] =>
        destruct (camera_loop_run xs s1) as (st1 & Hrun & _)
    end.
    exists st1. exact Hrun.
  - eexists; reflexivity.
Qed.

Lemma updateAppStates_camera_raises inp dt st e :
  fst (BaseCamera_update inp dt (camera (app st))) = Throw e ->
  exists st', updateAppStates_camera inp dt st = (Throw e, st').
Proof.
  unfold updateAppStates_camera. rewrite get_app_bind_run.
  destruct (BaseCamera_update inp dt (camera (app st))) as [r c].
  cbn [fst]. intros ->. rewrite set_app_bind_run.
  eexists; reflexivity.
Qed.

(** X22.  A camera-control step that returns keeps every shader program
    in step with the main camera: if each program of [this.shaders] held
    the camera's eye and view matrix before, it holds the eye and view
    matrix of the moved camera afterwards.  The step never writes another
    uniform (in particular not [u_p]), never touches a program outside
    [this.shaders], and changes no field of the application but the
    camera. *)
Theorem updateAppStates_camera_keeps_sync inp dt st st' :
  camera_synced st ->
  updateAppStates_camera inp dt st = (Ok tt, st') ->
  camera_synced st'
  /\ (forall s name, name <> "u_eye" -> name <> "u_v" ->
        uniforms_of (env st') s !! name = uniforms_of (env st) s !! name)
  /\ (forall s, ~ In s (shaders (app st)) ->
        uniforms_of (env st') s = uniforms_of (env st) s)
  /\ app st' = set_camera (app st) (camera (app st'))
  /\ projection (camera (app st')) = projection (camera (app st)).
Proof.
  intros Hsync. unfold updateAppStates_camera.
  rewrite get_app_bind_run.
  destruct (BaseCamera_update inp dt (camera (app st)))
    as [[[|] | e] c] eqn:Hupd.
  - rewrite set_app_bind_run, get_app_bind_run. cbn [app].
    match goal with
    | |- for_of ?xs _ ?s1 = _ -> _ =>
        destruct (camera_loop_run xs s1)
          as (st1 & Hrun & Happ & Hin & Hout & Hname)
    end.
    cbn [app env trace set_camera shaders camera] in *.
    rewrite Hrun. intros Heq. injection Heq as <-.
    unfold camera_synced.
    rewrite Happ. cbn [set_camera shaders camera].
    split; [| split; [| split; [| split]]].
    + intros s Hs. cbn [app shaders camera] in *. apply Hin; exact Hs.
    + exact Hname.
    + exact Hout.
    + reflexivity.
    + pose proof (proj1 (BaseCamera_update_projection inp dt
                           (camera (app st)))) as Hproj.
      rewrite Hupd in Hproj. exact Hproj.
  - apply BaseCamera_update_clean in Hupd. subst c.
    rewrite set_app_bind_run. intros Heq. injection Heq as <-.
    unfold camera_synced.
    cbn [app env trace set_camera shaders camera].
    split; [| split; [| split; [| split]]]; try reflexivity.
    intros s Hs. apply Hsync; exact Hs.
  - rewrite set_app_bind_run. intros Heq. discriminate Heq.
Qed.

(** X23.  When the rotation of a camera-control step raises, the
    exception leaves [updateAppStates] with the eye of the camera already
    moved and no shader program told: not a single call was issued, so
    the programs keep the old eye and view matrix. *)
Theorem updateAppStates_camera_raise_is_stale inp dt st e st' :
  updateAppStates_camera inp dt st = (Throw e, st') ->
  env st' = env st
  /\ trace st' = trace st
  /\ fst (BaseCamera_update inp dt (camera (app st))) = Throw e
  /\ camera (app st') = snd (BaseCamera_update inp dt (camera (app st)))
  /\ view (camera (app st')) = view (camera (app st)).
Proof.
  unfold updateAppStates_camera. rewrite get_app_bind_run.
  destruct (BaseCamera_update inp dt (camera (app st)))
    as [[[|] | e1] c] eqn:Hupd.
  - rewrite set_app_bind_run, get_app_bind_run. cbn [app].
    match goal with
    | |- for_of ?xs _ ?s1 = _ -> _ =>
        destruct (camera_loop_run xs s1) as (st1 & Hrun & _)
    end.
    rewrite Hrun. intros Heq. discriminate Heq.
  - rewrite set_app_bind_run. intros Heq. discriminate Heq.
  - rewrite set_app_bind_run. intros Heq. injection Heq as <- <-.
    cbn [app env trace set_camera camera fst snd].
    repeat split.
    pose proof (BaseCamera_update_raise inp dt (camera (app st)) e1) as Hr.
    rewrite Hupd in Hr. exact (proj1 (Hr eq_refl)).
Qed.



End AppStateProperties.

(** * Scene-node control *)

Lemma mat4_multiply_identity_r (a : mat4) :
  mat4_multiply a mat4_identity = a.
Proof.
  destruct a. unfold mat4_multiply, mat4_identity; simpl. f_equal; ring.
Qed.

Lemma mat4_multiply_assoc (a b c : mat4) :
  mat4_multiply (mat4_multiply a b) c = mat4_multiply a (mat4_multiply b c).
Proof.
  destruct a, b, c. unfold mat4_multiply; simpl. f_equal; ring.
Qed.

Section SceneNodeProperties.
Context `{GlMatrixLib} `{Mat4Invert}.

(** X24.  Scaling a node (right button only) acts in the node's own
    frame, whatever the rotation and scale of its parents: when the
    library inverts the world rotation-scale matrix, the matrix handed to
    [setTransformation] is the node's transformation times the uniform
    scaling by [1 + getMouseDy * delta_time]. *)
Theorem updateSceneNode_scale_is_local inp dt cam node world inverse :
  isMouseDown inp 2 = true ->
  isMouseDown inp 0 = false ->
  isMouseDown inp 1 = false ->
  node_world_transformation node = Some world ->
  mat4_invert (clear_translation world) = Some inverse ->
  mat4_multiply inverse (clear_translation world) = mat4_identity ->
  updateSceneNode inp dt cam node
  = Ok (Some (mat4_multiply (node_transformation node)
                (mat4_fromScaling
                   (V3 (1 + getMouseDy inp * dt) (1 + getMouseDy inp * dt)
                       (1 + getMouseDy inp * dt))))).
Proof.
  intros Hm2 Hm0 Hm1 Hw Hinv Hid. unfold updateSceneNode.
  rewrite Hm2, Hm0, Hm1, Hw. cbn [andb orb]. cbv beta iota zeta.
  rewrite Hinv. unfold mat4_create.
  rewrite !mat4_multiply_identity_r, mat4_multiply_assoc, Hid,
    mat4_multiply_identity_r.
  reflexivity.
Qed.

(** X25.  A node is left alone while no button is held; and a node whose
    world transformation is [null] (the root, according to the comment in
    the code) is never given a new transformation: with any control
    active the call raises before the branch meant for the root is
    reached. *)
Theorem updateSceneNode_never_moves_root inp dt cam node :
  (isMouseDown inp 0 = false -> isMouseDown inp 1 = false ->
   isMouseDown inp 2 = false ->
   updateSceneNode inp dt cam node = Ok None)
  /\ (node_world_transformation node = None ->
      (forall t, updateSceneNode inp dt cam node <> Ok (Some t))
      /\ (isMouseDown inp 0 = true \/ isMouseDown inp 1 = true
          \/ isMouseDown inp 2 = true ->
          exists e, updateSceneNode inp dt cam node = Throw e)).
Proof.
  split.
  - intros Hm0 Hm1 Hm2. unfold updateSceneNode. rewrite Hm0, Hm1, Hm2.
    reflexivity.
  - intros Hw. unfold updateSceneNode. rewrite Hw.
    destruct (isMouseDown inp 2), (isMouseDown inp 0), (isMouseDown inp 1),
      (isKeyDown inp " "); cbn [andb orb negb];
      try destruct (mat4_fromRotation _ (up cam));
      try destruct (mat4_fromRotation _ (right cam));
      cbv beta iota zeta;
      (split; [intros t Heq; discriminate Heq |]);
      intros Hany;
      try (eexists; reflexivity);
      destruct Hany as [Hany | [Hany | Hany]]; discriminate Hany.
Qed.

End SceneNodeProperties.

(** * The additional properties on concrete inputs *)

Lemma empty_tex_gl_fresh : handles_fresh empty_tex_gl.
Proof.
  intros t Hs. simpl in Hs. rewrite lookup_empty in Hs.
  destruct Hs as [o Ho]. discriminate Ho.
Qed.

Lemma side_camera_distance : focus_distance side_camera = 3.
Proof.
  unfold focus_distance, vec3_length, side_camera; simpl.
  replace ((3 - 0) * (3 - 0) + (0 - 0) * (0 - 0) + (0 - 0) * (0 - 0))
    with (3 * 3) by ring.
  apply sqrt_square. lra.
Qed.

Lemma strict_null_rotation (angle : R) :
  @mat4_fromRotation strict_glmatrix angle (V3 0 0 0) = None.
Proof.
  simpl. destruct (Rgt_dec _ 0) as [Hpos | _]; [| reflexivity].
  exfalso. unfold vec3_dot in Hpos. simpl in Hpos. lra.
Qed.

Lemma lit_app_ready : @shadowmap_ready sample_glmatrix lit_app.
Proof.
  exists lit_scene. split; [reflexivity |].
  split; [eexists; reflexivity |].
  split; intros l Hl; injection Hl as <-;
    (split; [eexists; reflexivity |]);
    (split; eexists; reflexivity).
Qed.

Lemma synced_state_synced : camera_synced synced_state.
Proof.
  assert (H0 : uniforms_of (env synced_state) 0%nat = synced_uniforms).
  { unfold uniforms_of, synced_state; cbn [env uniforms].
    rewrite lookup_insert_eq. reflexivity. }
  assert (H1 : uniforms_of (env synced_state) 1%nat = synced_uniforms).
  { unfold uniforms_of, synced_state; cbn [env uniforms].
    rewrite lookup_insert_ne by discriminate.
    rewrite lookup_insert_eq. reflexivity. }
  assert (Hu : synced_uniforms !! "u_eye" = Some (U3f (eye main_camera))
               /\ synced_uniforms !! "u_v" = Some (U4x4f (view main_camera))).
  { unfold synced_uniforms. split.
    - apply lookup_insert_eq.
    - rewrite lookup_insert_ne by discriminate. apply lookup_insert_eq. }
  intros s Hs. simpl in Hs.
  destruct Hs as [<- | [<- | []]].
  - rewrite H0. exact Hu.
  - rewrite H1. exact Hu.
Qed.


(** X4, witness: the empty context, and a render texture resized in it. *)
Lemma texture_handles_fresh_witness :
  handles_fresh empty_tex_gl
  /\ handles_fresh
       (snd (RenderTexture_resize 640 480
               (fst (new_RenderTexture RGBA RGBA UNSIGNED_BYTE empty_tex_gl))
               empty_tex_gl)).
Proof.
  split; [exact empty_tex_gl_fresh |].
  exact (proj1 (proj2 (proj2 (texture_handles_fresh empty_tex_gl
                                empty_tex_gl_fresh)))
           640%Z 480%Z
           (fst (new_RenderTexture RGBA RGBA UNSIGNED_BYTE empty_tex_gl))).
Defined.

(** X7, witness: the main camera panned with the middle button. *)
Lemma BaseCamera_update_pan_witness :
  exists c',
    @BaseCamera_update sample_glmatrix pan_input 1 main_camera = (Ok true, c')
    /\ vec3_sub (eye c') (center c')
       = vec3_sub (eye main_camera) (center main_camera).
Proof.
  pose proof (@BaseCamera_update_pan sample_glmatrix pan_input 1 main_camera
                eq_refl eq_refl eq_refl) as Hw.
  cbv zeta in Hw. destruct Hw as (c' & Hrun & _ & _ & Hoff & _).
  exists c'. split; assumption.
Defined.

(** X8, witness: a camera three units from its center zooms in by one. *)
Lemma BaseCamera_update_zoom_witness :
  exists c',
    @BaseCamera_update sample_glmatrix (zoom_input 1) 1 side_camera
    = (Ok true, c')
    /\ forward c' = forward side_camera
    /\ focus_distance c' = focus_distance side_camera - 1 * 1.
Proof.
  assert (Hd : 0 < focus_distance side_camera)
    by (rewrite side_camera_distance; lra).
  assert (Hk : getMouseDy (zoom_input 1) * 1 < focus_distance side_camera)
    by (rewrite side_camera_distance; simpl; lra).
  pose proof (@BaseCamera_update_zoom sample_glmatrix (zoom_input 1) 1
                side_camera eq_refl eq_refl eq_refl eq_refl Hd Hk) as Hw.
  destruct Hw as (c' & Hrun & _ & Hf & Hdist).
  exists c'. repeat split; assumption.
Defined.

(** X9, witness: the same camera zooms in by five, past its center. *)
Lemma BaseCamera_update_zoom_through_witness :
  exists c',
    @BaseCamera_update sample_glmatrix (zoom_input 5) 1 side_camera
    = (Ok true, c')
    /\ forward c' = vec3_scale (forward side_camera) (-1).
Proof.
  assert (Hd : 0 < focus_distance side_camera)
    by (rewrite side_camera_distance; lra).
  assert (Hk : focus_distance side_camera < getMouseDy (zoom_input 5) * 1)
    by (rewrite side_camera_distance; simpl; lra).
  pose proof (@BaseCamera_update_zoom_through sample_glmatrix (zoom_input 5) 1
                side_camera eq_refl eq_refl eq_refl eq_refl Hd Hk) as Hw.
  destruct Hw as (c' & Hrun & _ & Hf & _).
  exists c'. split; assumption.
Defined.

(** X10, witness: a camera one unit above the origin, looking down, is
    rotated with the left button. *)
Lemma overhead_camera_rotate_raises_witness :
  exists e c',
    @BaseCamera_update strict_glmatrix rotate_input 1
      (@new_BaseCamera strict_glmatrix (V3 0 1 0) (V3 0 0 0) mat4_identity
         OrthoClass) = (Throw e, c')
    /\ view c'
       = view (@new_BaseCamera strict_glmatrix (V3 0 1 0) (V3 0 0 0)
                 mat4_identity OrthoClass).
Proof.
  pose proof (@overhead_camera_rotate_raises strict_glmatrix
                (V3 0 1 0) (V3 0 0 0) mat4_identity OrthoClass rotate_input 1
                eq_refl eq_refl strict_null_rotation eq_refl eq_refl) as Hw.
  cbv zeta in Hw. destruct Hw as (e & c' & Hrun & Hview & _).
  exists e, c'. split; assumption.
Defined.

(** X12, witness: two ambient lights with the ids 0 and 1. *)
Lemma AmbientLight_updates_by_id_witness :
  exists st',
    (AmbientLight_update ambient_light_a;;
     AmbientLight_update ambient_light_b) initial_state = (Ok tt, st')
    /\ uniforms_of (env st') 2%nat !! ambient_color_name 0
       = Some (U3f (V3 1 0 0))
    /\ uniforms_of (env st') 2%nat !! ambient_color_name 1
       = Some (U3f (V3 0 1 0)).
Proof.
  destruct (AmbientLight_updates_by_id ambient_light_a ambient_light_b
              2%nat initial_state eq_refl eq_refl)
    as (st' & Hrun & Hc2 & _ & Hfirst & _).
  exists st'. split; [exact Hrun |].
  split; [| exact Hc2].
  apply Hfirst. simpl. lia.
Defined.

(** X13, witness: an ambient, a directional and a point light, all with
    the id 0. *)
Lemma light_updates_across_classes_witness :
  exists st',
    (AmbientLight_update ambient_light_a;;
     @DirectionalLight_update sample_glmatrix directional_light_a;;
     PointLight_update point_light_a) initial_state = (Ok tt, st')
    /\ uniforms_of (env st') 2%nat !! ambient_color_name 0
       = Some (U3f (V3 1 0 0))
    /\ uniforms_of (env st') 2%nat !! directional_color_name 0
       = Some (U3f (V3 1 1 1))
    /\ uniforms_of (env st') 2%nat !! point_color_name 0
       = Some (U3f (V3 1 1 0)).
Proof.
  destruct (@light_updates_across_classes sample_glmatrix
              ambient_light_a directional_light_a point_light_a
              2%nat initial_state eq_refl eq_refl eq_refl)
    as (st' & Hrun & Ha & _ & _ & Hd & _ & _ & Hp & _).
  exists st'. repeat split; assumption.
Defined.

(** X14, witness: a depth pass before any scene was opened. *)
Lemma do_depth_pass_fails_early_witness :
  exists msg,
    @do_depth_pass sample_glmatrix quiet_collaborators
      FboDirectional directional_light0 empty_state
    = (Throw (TypeError msg), empty_state).
Proof.
  exact (@do_depth_pass_fails_early sample_glmatrix quiet_collaborators
           FboDirectional directional_light0 empty_state
           (or_introl eq_refl)).
Defined.


(** X16, witness: the shadow pass on a scene with both kinds of light. *)
Lemma renderpass_shadowmap_draw_uniforms_witness :
  exists st' sh e_draw,
    @renderpass_shadowmap sample_glmatrix quiet_collaborators
      800 600 lit_state = (Ok tt, st')
    /\ uniforms_of e_draw sh !! "u_shadow_pv_point"
       = Some (U4x4f (@shadow_matrix sample_glmatrix lit_scene
                        (Some point_light0)))
    /\ uniforms_of e_draw sh !! "u_shadow_pv_directional"
       = Some (U4x4f (@shadow_matrix sample_glmatrix lit_scene
                        (Some directional_light0))).
Proof.
  destruct (@renderpass_shadowmap_ready_returns sample_glmatrix
              quiet_collaborators 800 600 lit_state quiet_never_raises
              lit_app_ready) as [st' Hrun].
  destruct (@renderpass_shadowmap_draw_uniforms sample_glmatrix
              quiet_collaborators 800 600 lit_state st' Hrun)
    as (sc & sh & e_draw & e_after & Hsc & _ & _ & Hp & Hd & _).
  injection Hsc as <-.
  exists st', sh, e_draw. repeat split; assumption.
Defined.

(** X17, witness: collaborators that return, and the lit scene. *)
Lemma renderpass_shadowmap_returns_iff_witness :
  (exists st',
      @renderpass_shadowmap sample_glmatrix quiet_collaborators
        800 600 lit_state = (Ok tt, st'))
  <-> @shadowmap_ready sample_glmatrix (app lit_state).
Proof.
  exact (@renderpass_shadowmap_returns_iff sample_glmatrix
           quiet_collaborators 800 600 lit_state quiet_never_raises).
Defined.

(** X18, witness: a pixel-filter pass before any scene was opened. *)
Lemma renderpass_pixel_filter_without_scene_witness :
  exists st',
    @renderpass_pixel_filter quiet_collaborators 800 600 empty_state
    = (Throw (TypeError "this.scene"), st')
    /\ bound_framebuffer (env st') = Some FboPixelFilter.
Proof.
  destruct (@renderpass_pixel_filter_without_scene quiet_collaborators
              800 600 None empty_state eq_refl)
    as (_ & st' & Hrun & _ & Hb & _).
  exists st'. split; assumption.
Defined.

(** X19, witness: a scene with a model, an ambient light, a directional
    light, a point light and a second directional light, in this order. *)
Lemma openScene_tracks_first_lights_witness :
  exists st',
    @openScene quiet_collaborators lit_scene empty_state = (Ok lit_scene, st')
    /\ first_directional_light (app st') = Some directional_light0
    /\ first_point_light (app st') = Some point_light0.
Proof.
  destruct (@openScene_total quiet_collaborators lit_scene empty_state
              quiet_never_raises) as [st' Hrun].
  destruct (@openScene_tracks_first_lights sample_glmatrix
              quiet_collaborators lit_scene
              empty_state lit_scene st' Hrun)
    as (_ & _ & Hd & Hp & _).
  exists st'. split; [exact Hrun |]. split; [exact Hd | exact Hp].
Defined.

(** X20, witness: [setShader] raises while the lit scene is opened over
    a state that tracked two lights. *)
Lemma openScene_setShader_raises_witness :
  exists st',
    @openScene failing_set_shader lit_scene lit_state
    = (Throw (ExternalError "scene.setShader"), st')
    /\ first_directional_light (app st') = None
    /\ first_point_light (app st') = None.
Proof.
  destruct (@openScene_setShader_raises failing_set_shader lit_scene
              lit_state (ExternalError "scene.setShader") initial_env
              eq_refl)
    as (st' & Hrun & _ & Hd & Hp & _).
  exists st'. repeat split; assumption.
Defined.

(** X22, witness: two shader programs in step with the main camera, and a
    pan. *)
Lemma updateAppStates_camera_keeps_sync_witness :
  exists st',
    @updateAppStates_camera sample_glmatrix pan_input 1 synced_state
    = (Ok tt, st')
    /\ camera_synced st'.
Proof.
  destruct (@updateAppStates_camera_total sample_glmatrix pan_input 1
              synced_state true eq_refl) as [st' Hrun].
  exists st'. split; [exact Hrun |].
  exact (proj1 (@updateAppStates_camera_keeps_sync sample_glmatrix
                  pan_input 1 synced_state st' synced_state_synced Hrun)).
Defined.

(** X23, witness: the camera looks straight down and is rotated. *)
Lemma updateAppStates_camera_raise_is_stale_witness :
  exists e st',
    @updateAppStates_camera strict_glmatrix rotate_input 1 overhead_state
    = (Throw e, st')
    /\ env st' = env overhead_state
    /\ trace st' = trace overhead_state.
Proof.
  destruct (@BaseCamera_update_rotate_null strict_glmatrix rotate_input 1
              (camera (app overhead_state))
              (updateViewSpaceVectors_vertical
                 (mkCamera (V3 0 1 0) (V3 0 0 0) vec3_create vec3_create
                           vec3_create mat4_identity
                           (mat4_ortho (-1) 1 (-1) 1 default_near default_far)
                           OrthoClass) eq_refl eq_refl)
              strict_null_rotation eq_refl eq_refl)
    as (e & c' & Hupd & _).
  assert (Hfst : fst (@BaseCamera_update strict_glmatrix rotate_input 1
                        (camera (app overhead_state))) = Throw e)
    by (rewrite Hupd; reflexivity).
  destruct (@updateAppStates_camera_raises strict_glmatrix rotate_input 1
              overhead_state e Hfst) as [st' Hrun].
  destruct (@updateAppStates_camera_raise_is_stale strict_glmatrix
              rotate_input 1 overhead_state e st' Hrun)
    as (Henv & Ht & _).
  exists e, st'. repeat split; assumption.
Defined.

Lemma child_node_inverse :
  @mat4_invert identity_inverse
    (clear_translation (M4 1 0 0 0  0 1 0 0  0 0 1 0  1 2 3 1))
  = Some mat4_identity.
Proof.
  simpl. destruct (Req_dec_T (1 + 1 + 1 + 1) 4) as [_ | Hne];
    [reflexivity | exfalso; apply Hne; ring].
Qed.

Lemma child_node_inverse_ok :
  mat4_multiply mat4_identity
    (clear_translation (M4 1 0 0 0  0 1 0 0  0 0 1 0  1 2 3 1))
  = mat4_identity.
Proof. unfold mat4_multiply, mat4_identity; simpl. f_equal; ring. Qed.

(** X24, witness: a node under an untransformed parent is scaled by 2. *)
Lemma updateSceneNode_scale_is_local_witness :
  @updateSceneNode sample_glmatrix identity_inverse (zoom_input 1) 1
    main_camera child_node
  = Ok (Some (mat4_multiply (node_transformation child_node)
                (mat4_fromScaling (V3 (1 + 1 * 1) (1 + 1 * 1) (1 + 1 * 1))))).
Proof.
  exact (@updateSceneNode_scale_is_local sample_glmatrix identity_inverse
           (zoom_input 1) 1 main_camera child_node
           (M4 1 0 0 0  0 1 0 0  0 0 1 0  1 2 3 1) mat4_identity
           eq_refl eq_refl eq_refl eq_refl
           child_node_inverse child_node_inverse_ok).
Defined.
